(** * aby_image_generation frontend: the push-channel hook and the image aggregator

    A shallow embedding of [src/frontend/src/hooks/useWebSocket.ts]
    ([useGeneratedImages] and [useWebSocket]) and of the auto-disconnect effect
    of [src/frontend/src/components/generation/GenerationConsole.tsx], with the
    properties of the specification stated over it. *)

From stdpp Require Import base numbers list strings gmap.

Open Scope string_scope.
Open Scope list_scope.
Open Scope Z_scope.

(** ** [useGeneratedImages]: the ordered collection of per-prediction records *)

Module Images.

(** [GeneratedImage['status']] *)
Inductive Status := starting | processing | succeeded | failed | canceled.

#[global] Instance Status_eq_dec : EqDecision Status.
Proof. solve_decision. Defined.

(** [metrics?: { image_count: number; predict_time: number }].  The two
    numbers are payload only: the hook stores and returns them and never
    computes with them. *)
Record Metrics := { image_count : Z; predict_time : Z }.

(** [interface GeneratedImage]; an optional field is an [option]. *)
Record GeneratedImage := {
  prediction_id : string;
  status : Status;
  urls : list string;
  error : option string;
  data_removed : option bool;
  note : option string;
  output : option (list string);
  metrics : option Metrics;
}.

(** The two [useState] cells of the hook. *)
Record State := {
  images : list GeneratedImage;
  firstImageArrivalTime : option Z;
}.

(** [useState<GeneratedImage[]>([])], [useState<number | null>(null)] *)
Definition initial : State := {| images := []; firstImageArrivalTime := None |}.

(** [Array.prototype.findIndex]; [None] is JavaScript's [-1]. *)
Fixpoint findIndex {A : Type} (p : A -> bool) (l : list A) : option nat :=
  match l with
  | [] => None
  | x :: l' => if p x then Some 0%nat else S <$> findIndex p l'
  end.

(** [img => img.prediction_id === newImage.prediction_id] *)
Definition same_id (id : string) (img : GeneratedImage) : bool :=
  bool_decide (prediction_id img = id).

(** [!firstImageArrivalTime] on a [number | null]: [null] and [0] are falsy. *)
Definition not_set (t : option Z) : bool :=
  match t with
  | None => true
  | Some n => bool_decide (n = 0)
  end.

(** [updateImage].  [captured] is the value of [firstImageArrivalTime] that the
    [useCallback] closure holds (the dependency list re-creates the callback
    when the cell changes; a caller that kept an older callback passes the
    older value).  [now] is the result of [Date.now()].  The state argument is
    what React hands to the functional updater of [setImages] together with
    the current value of the other cell. *)
Definition updateImage (captured : option Z) (now : Z)
    (newImage : GeneratedImage) (st : State) : State :=
  let prevImages := images st in
  match findIndex (same_id (prediction_id newImage)) prevImages with
  | Some existingIndex =>
      match prevImages !! existingIndex with
      | Some existing =>
          if bool_decide (status existing = succeeded)
             && bool_decide (status newImage = succeeded)
          then st
          else {| images := <[existingIndex := newImage]> prevImages;
                  firstImageArrivalTime := firstImageArrivalTime st |}
      | None => st (* not reachable: findIndex returns an index of the array *)
      end
  | None =>
      {| images := newImage :: prevImages;
         firstImageArrivalTime :=
           if bool_decide (status newImage = succeeded) && not_set captured
           then Some now
           else firstImageArrivalTime st |}
  end.

(** [clearImages] *)
Definition clearImages (_ : State) : State :=
  {| images := []; firstImageArrivalTime := None |}.

(** [getImagesByStatus], [getSucceededImages] and the derived counts. *)
Definition getImagesByStatus (s : Status) (st : State) : list GeneratedImage :=
  filter (fun img => status img = s) (images st).

Definition getSucceededImages (st : State) : list GeneratedImage :=
  filter (fun img => status img = succeeded /\ (0 < length (urls img))%nat) (images st).

Definition totalImages (st : State) : nat := length (images st).

Definition succeededCount (st : State) : nat :=
  length (filter (fun img => status img = succeeded) (images st)).

Definition processingCount (st : State) : nat :=
  length (filter (fun img => status img = processing \/ status img = starting) (images st)).

Definition failedCount (st : State) : nat :=
  length (filter (fun img => status img = failed) (images st)).

(** One event as the aggregator sees it: the clock reading and the payload.
    [apply] is [updateImage] as a component that re-reads the hook on every
    render calls it: the closure holds the current [firstImageArrivalTime]. *)
Definition apply (ev : Z * GeneratedImage) (st : State) : State :=
  updateImage (firstImageArrivalTime st) ev.1 ev.2 st.

Definition applyAll (evs : list (Z * GeneratedImage)) (st : State) : State :=
  foldl (fun acc ev => apply ev acc) st evs.

(** The record the collection holds for an id: the one [findIndex] reaches. *)
Definition recordFor (id : string) (imgs : list GeneratedImage) : option GeneratedImage :=
  i ← findIndex (same_id id) imgs; imgs !! i.

Definition ids (imgs : list GeneratedImage) : list string := prediction_id <$> imgs.

(** A payload with only the mandatory fields. *)
Definition mk (id : string) (s : Status) (us : list string) : GeneratedImage :=
  {| prediction_id := id; status := s; urls := us; error := None;
     data_removed := None; note := None; output := None; metrics := None |}.

End Images.

(** ** [useWebSocket]: the connection hook, with the browser objects it drives *)

Module Socket.
Import Images.

(** [interface WebSocketMessage] *)
Inductive MessageType := prediction_update | pong | error_message.

Record WebSocketMessage := { type : MessageType; data : GeneratedImage }.

(** A value that [JSON.parse] returns.  A number is carried as in [Metrics];
    the members of an object are in the order of the text. *)
#[local] Unset Elimination Schemes.
Inductive JSON :=
| JNull
| JBool (b : bool)
| JNumber (n : Z)
| JString (s : string)
| JArray (items : list JSON)
| JObject (members : list (string * JSON)).
#[local] Set Elimination Schemes.

(** [v[k]] for an own property of an object ([None]: [undefined]); of two
    members with the same name [JSON.parse] keeps the later one. *)
Definition member (k : string) (v : JSON) : option JSON :=
  match v with
  | JObject ms => snd <$> last (filter (fun kv => kv.1 = k) ms)
  | _ => None
  end.

(** The shape that [interface WebSocketMessage] and [interface GeneratedImage]
    declare, as a check on a parsed value.  The source never runs such a check:
    the annotation [const message: WebSocketMessage] is erased at run time. *)
Definition as_string (v : JSON) : option string :=
  match v with JString s => Some s | _ => None end.

Definition as_bool (v : JSON) : option bool :=
  match v with JBool b => Some b | _ => None end.

Definition as_number (v : JSON) : option Z :=
  match v with JNumber n => Some n | _ => None end.

Definition as_strings (v : JSON) : option (list string) :=
  match v with JArray items => mapM as_string items | _ => None end.

Definition as_status (v : JSON) : option Status :=
  s ← as_string v;
  if bool_decide (s = "starting") then Some starting
  else if bool_decide (s = "processing") then Some processing
  else if bool_decide (s = "succeeded") then Some succeeded
  else if bool_decide (s = "failed") then Some failed
  else if bool_decide (s = "canceled") then Some canceled
  else None.

Definition as_type (v : JSON) : option MessageType :=
  s ← as_string v;
  if bool_decide (s = "prediction_update") then Some prediction_update
  else if bool_decide (s = "pong") then Some pong
  else if bool_decide (s = "error") then Some error_message
  else None.

(** An optional field: absent, or of the declared shape. *)
Definition optional {A : Type} (shape : JSON -> option A) (o : option JSON)
    : option (option A) :=
  match o with
  | None => Some None
  | Some v => Some <$> shape v
  end.

Definition as_metrics (v : JSON) : option Metrics :=
  ic ← member "image_count" v ≫= as_number;
  pt ← member "predict_time" v ≫= as_number;
  Some {| image_count := ic; predict_time := pt |}.

Definition as_image (v : JSON) : option GeneratedImage :=
  id ← member "prediction_id" v ≫= as_string;
  st ← member "status" v ≫= as_status;
  us ← member "urls" v ≫= as_strings;
  er ← optional as_string (member "error" v);
  dr ← optional as_bool (member "data_removed" v);
  nt ← optional as_string (member "note" v);
  ou ← optional as_strings (member "output" v);
  me ← optional as_metrics (member "metrics" v);
  Some {| prediction_id := id; status := st; urls := us; Images.error := er;
          data_removed := dr; note := nt; output := ou; metrics := me |}.

Definition as_message (v : JSON) : option WebSocketMessage :=
  t ← member "type" v ≫= as_type;
  d ← member "data" v ≫= as_image;
  Some {| type := t; data := d |}.

(** What the hook needs from the browser and cannot decide itself:
    [JSON.parse] on a frame ([None]: it throws; otherwise whatever value the
    text denotes), and whether [new WebSocket(url)] constructs or throws. *)
Record Browser := {
  JSON_parse : string -> option JSON;
  WebSocket_constructs : string -> bool;
}.

(** [WebSocket.readyState] *)
Inductive ReadyState := CONNECTING | OPEN | CLOSING | CLOSED.

#[global] Instance ReadyState_eq_dec : EqDecision ReadyState.
Proof. solve_decision. Defined.

(** A [WebSocket] object created by [connect].  [close_args] records the call
    of [close] made on it ([Some None]: [close()] without a code).  The four
    handlers installed on it are closures over the [jobId] and the [enabled]
    of the [connect] call that created it. *)
Record WebSocket := {
  url : string;
  readyState : ReadyState;
  close_args : option (option (Z * string));
  ws_jobId : string;
  ws_enabled : bool;
}.

(** A timer created by [setTimeout] in [ws.onclose]; its callback is a closure
    over the same [jobId] and [connect]. *)
Record Timeout := {
  delay : Z;
  pending : bool;
  to_jobId : string;
  to_enabled : bool;
}.

(** Console output and observer calls, in program order. *)
Inductive Effect :=
| log_connecting (wsUrl : string)
| log_connected
| log_message (m : JSON)
| error_parse
| log_closed (code : Z) (reason : string)
| log_reconnect (delay : Z) (attempt : nat)
| error_websocket
| error_create
| log_25
| log_all_completed (expected : Z)
| call_onMessage (m : JSON)
| call_onConnect
| call_onDisconnect
| call_onError.

(** The hook instance: its two state cells, its three refs, and the browser
    objects reachable from it.  A socket handle is an index into [sockets], a
    timer id an index into [timeouts]. *)
Record Hook := {
  isConnected : bool;
  error : option string;
  wsRef : option nat;
  reconnectTimeoutRef : option nat;
  reconnectAttemptsRef : nat;
  sockets : list WebSocket;
  timeouts : list Timeout;
  trace : list Effect;
}.

Definition initial : Hook :=
  {| isConnected := false; error := None; wsRef := None;
     reconnectTimeoutRef := None; reconnectAttemptsRef := 0%nat;
     sockets := []; timeouts := []; trace := [] |}.

Definition maxReconnectAttempts : nat := 5.

(** Field updates. *)
Definition set_isConnected (b : bool) (s : Hook) : Hook :=
  {| isConnected := b; error := error s; wsRef := wsRef s;
     reconnectTimeoutRef := reconnectTimeoutRef s;
     reconnectAttemptsRef := reconnectAttemptsRef s;
     sockets := sockets s; timeouts := timeouts s; trace := trace s |}.

Definition set_error (e : option string) (s : Hook) : Hook :=
  {| isConnected := isConnected s; error := e; wsRef := wsRef s;
     reconnectTimeoutRef := reconnectTimeoutRef s;
     reconnectAttemptsRef := reconnectAttemptsRef s;
     sockets := sockets s; timeouts := timeouts s; trace := trace s |}.

Definition set_wsRef (r : option nat) (s : Hook) : Hook :=
  {| isConnected := isConnected s; error := error s; wsRef := r;
     reconnectTimeoutRef := reconnectTimeoutRef s;
     reconnectAttemptsRef := reconnectAttemptsRef s;
     sockets := sockets s; timeouts := timeouts s; trace := trace s |}.

Definition set_reconnectTimeoutRef (r : option nat) (s : Hook) : Hook :=
  {| isConnected := isConnected s; error := error s; wsRef := wsRef s;
     reconnectTimeoutRef := r;
     reconnectAttemptsRef := reconnectAttemptsRef s;
     sockets := sockets s; timeouts := timeouts s; trace := trace s |}.

Definition set_reconnectAttemptsRef (n : nat) (s : Hook) : Hook :=
  {| isConnected := isConnected s; error := error s; wsRef := wsRef s;
     reconnectTimeoutRef := reconnectTimeoutRef s;
     reconnectAttemptsRef := n;
     sockets := sockets s; timeouts := timeouts s; trace := trace s |}.

Definition set_sockets (l : list WebSocket) (s : Hook) : Hook :=
  {| isConnected := isConnected s; error := error s; wsRef := wsRef s;
     reconnectTimeoutRef := reconnectTimeoutRef s;
     reconnectAttemptsRef := reconnectAttemptsRef s;
     sockets := l; timeouts := timeouts s; trace := trace s |}.

Definition set_timeouts (l : list Timeout) (s : Hook) : Hook :=
  {| isConnected := isConnected s; error := error s; wsRef := wsRef s;
     reconnectTimeoutRef := reconnectTimeoutRef s;
     reconnectAttemptsRef := reconnectAttemptsRef s;
     sockets := sockets s; timeouts := l; trace := trace s |}.

Definition emit (e : Effect) (s : Hook) : Hook :=
  {| isConnected := isConnected s; error := error s; wsRef := wsRef s;
     reconnectTimeoutRef := reconnectTimeoutRef s;
     reconnectAttemptsRef := reconnectAttemptsRef s;
     sockets := sockets s; timeouts := timeouts s; trace := trace s ++ [e] |}.

Definition set_readyState (r : ReadyState) (w : WebSocket) : WebSocket :=
  {| url := url w; readyState := r; close_args := close_args w;
     ws_jobId := ws_jobId w; ws_enabled := ws_enabled w |}.

(** [WebSocket.prototype.close]: starts the closing handshake unless the socket
    is already closing or closed, and remembers the code it was given. *)
Definition WebSocket_close (h : nat) (args : option (Z * string)) (s : Hook) : Hook :=
  match sockets s !! h with
  | Some w =>
      match readyState w with
      | CLOSING | CLOSED => s
      | CONNECTING | OPEN =>
          set_sockets
            (<[h := {| url := url w; readyState := CLOSING; close_args := Some args;
                       ws_jobId := ws_jobId w; ws_enabled := ws_enabled w |}]> (sockets s)) s
      end
  | None => s
  end.

(** [setTimeout]: a new pending timer, whose id is returned. *)
Definition setTimeout (t : Timeout) (s : Hook) : nat * Hook :=
  (length (timeouts s), set_timeouts (timeouts s ++ [t]) s).

(** [clearTimeout]: the timer with this id, if any, will not fire. *)
Definition clearTimeout (id : nat) (s : Hook) : Hook :=
  match timeouts s !! id with
  | Some t =>
      set_timeouts
        (<[id := {| delay := delay t; pending := false;
                    to_jobId := to_jobId t; to_enabled := to_enabled t |}]> (timeouts s)) s
  | None => s
  end.

(** [Math.min(1000 * Math.pow(2, reconnectAttemptsRef.current), 30000)] *)
Definition reconnectDelay (attempts : nat) : Z :=
  Z.min (1000 * 2 ^ Z.of_nat attempts) 30000.

Section WithBrowser.
Context (B : Browser).

(** [connect(jobId)], as the closure of a render whose prop is [enabled]. *)
Definition connect (enabled : bool) (jobId : string) (s : Hook) : Hook :=
  if bool_decide (jobId = "") || negb enabled then s
  else
    (* Close existing connection *)
    let s1 := match wsRef s with
              | Some h => WebSocket_close h None s
              | None => s
              end in
    let wsUrl := "ws://localhost:8000/api/v1/generate/" +:+ jobId in
    let s2 := emit (log_connecting wsUrl) s1 in
    if WebSocket_constructs B wsUrl then
      let ws := length (sockets s2) in
      set_wsRef (Some ws)
        (set_sockets
           (sockets s2 ++ [{| url := wsUrl; readyState := CONNECTING; close_args := None;
                              ws_jobId := jobId; ws_enabled := enabled |}]) s2)
    else
      (* catch (err) *)
      set_error (Some "Failed to connect") (emit error_create s2).

(** [ws.onopen] *)
Definition ws_onopen (s : Hook) : Hook :=
  emit call_onConnect
    (set_reconnectAttemptsRef 0%nat
       (set_error None (set_isConnected true (emit log_connected s)))).

(** [ws.onmessage]: [event.data] is the frame.  Whatever [JSON.parse] returns
    is logged and handed to the observer; the call is recorded in the trace,
    and what the observer does with the message is the caller's
    ([Console.onMessage] below).  The call is inside the [try]:
    [observer_throws] tells whether the observer throws on this message, which
    the [catch] reports like a parse failure.  (The other three observers are
    called outside any [try] and are taken to return.) *)
Definition ws_onmessage (frame : string) (observer_throws : bool) (s : Hook) : Hook :=
  match JSON_parse B frame with
  | Some message =>
      let s1 := emit (call_onMessage message) (emit (log_message message) s) in
      if observer_throws then emit error_parse s1 else s1
  | None => emit error_parse s
  end.

(** [ws.onclose], as the closure of [connect enabled jobId]. *)
Definition ws_onclose (enabled : bool) (jobId : string) (code : Z) (reason : string)
    (s : Hook) : Hook :=
  let s1 := emit call_onDisconnect
              (set_wsRef None (set_isConnected false (emit (log_closed code reason) s))) in
  if negb (bool_decide (code = 1000))
     && bool_decide (reconnectAttemptsRef s1 < maxReconnectAttempts)%nat
     && enabled
  then
    let d := reconnectDelay (reconnectAttemptsRef s1) in
    let s2 := emit (log_reconnect d (reconnectAttemptsRef s1 + 1)) s1 in
    let '(id, s3) := setTimeout {| delay := d; pending := true;
                                   to_jobId := jobId; to_enabled := enabled |} s2 in
    set_reconnectTimeoutRef (Some id) s3
  else s1.

(** [ws.onerror] *)
Definition ws_onerror (s : Hook) : Hook :=
  emit call_onError (set_error (Some "Connection error") (emit error_websocket s)).

(** The callback given to [setTimeout] in [ws.onclose]. *)
Definition timeout_callback (enabled : bool) (jobId : string) (s : Hook) : Hook :=
  connect enabled jobId (set_reconnectAttemptsRef (S (reconnectAttemptsRef s)) s).

End WithBrowser.

(** [disconnect()] *)
Definition disconnect (s : Hook) : Hook :=
  let s1 := match reconnectTimeoutRef s with
            | Some id => clearTimeout id s
            | None => s
            end in
  let s2 := match wsRef s1 with
            | Some h => set_wsRef None (WebSocket_close h (Some (1000, "Manual disconnect")) s1)
            | None => s1
            end in
  set_error None (set_isConnected false s2).

(** *** The browser side: which calls and events can reach the hook *)

Inductive Input :=
| do_connect (enabled : bool) (jobId : string)
| do_disconnect
| on_open (h : nat)
| on_message (h : nat) (frame : string) (observer_throws : bool)
| on_error (h : nat)
| on_close (h : nat) (code : Z) (reason : string)
| on_timeout (id : nat).

(** One input.  [None]: the browser cannot deliver this event in this state
    (no such socket or timer, an [open] on a socket that is not connecting, a
    message on a socket that is not open, any event on a closed socket, a
    timer that has fired or was cleared).  The browser updates [readyState]
    before it calls the handler, and a timer that fires is no longer pending
    when its callback runs. *)
Definition step (B : Browser) (i : Input) (s : Hook) : option Hook :=
  match i with
  | do_connect enabled jobId => Some (connect B enabled jobId s)
  | do_disconnect => Some (disconnect s)
  | on_open h =>
      w ← sockets s !! h;
      if bool_decide (readyState w = CONNECTING)
      then Some (ws_onopen (set_sockets (<[h := set_readyState OPEN w]> (sockets s)) s))
      else None
  | on_message h frame observer_throws =>
      w ← sockets s !! h;
      if bool_decide (readyState w = OPEN)
      then Some (ws_onmessage B frame observer_throws s)
      else None
  | on_error h =>
      w ← sockets s !! h;
      if bool_decide (readyState w = CLOSED) then None else Some (ws_onerror s)
  | on_close h code reason =>
      w ← sockets s !! h;
      if bool_decide (readyState w = CLOSED) then None
      else Some (ws_onclose (ws_enabled w) (ws_jobId w) code reason
                   (set_sockets (<[h := set_readyState CLOSED w]> (sockets s)) s))
  | on_timeout id =>
      t ← timeouts s !! id;
      if pending t
      then Some (timeout_callback B (to_enabled t) (to_jobId t) (clearTimeout id s))
      else None
  end.

Fixpoint run (B : Browser) (inputs : list Input) (s : Hook) : option Hook :=
  match inputs with
  | [] => Some s
  | i :: rest => s' ← step B i s; run B rest s'
  end.

(** A transport is live while it is connecting or open. *)
Definition is_live (w : WebSocket) : bool :=
  match readyState w with
  | CONNECTING | OPEN => true
  | CLOSING | CLOSED => false
  end.

Definition live (s : Hook) : list WebSocket := filter (fun w => is_live w = true) (sockets s).

(** The reconnects that are scheduled and will fire. *)
Definition scheduled (s : Hook) : list Timeout :=
  filter (fun t => pending t = true) (timeouts s).

(** The delays of all reconnects scheduled so far, oldest first. *)
Definition delays (s : Hook) : list Z := delay <$> timeouts s.

(** The five delays that the guard [reconnectAttemptsRef.current <
    maxReconnectAttempts] lets through. *)
Definition backoff_delays : list Z := [1000; 2000; 4000; 8000; 16000].

(** [n] unclean closes in a row with no successful open in between: socket
    [h] closes with code 1006, its reconnect timer [h] fires and opens socket
    [h + 1], which closes in turn. *)
Fixpoint failures_from (h n : nat) : list Input :=
  match n with
  | O => []
  | S n' => on_close h 1006 "" :: on_timeout h :: failures_from (S h) n'
  end.

(** A browser for the closed examples below: the constructor accepts every
    URL, and [JSON.parse] knows three texts, none of them a message. *)
Definition test_browser : Browser :=
  {| JSON_parse := fun frame =>
       if bool_decide (frame = "null") then Some JNull
       else if bool_decide (frame = "true") then Some (JBool true)
       else if bool_decide (frame = "[]") then Some (JArray [])
       else None;
     WebSocket_constructs := fun _ => true |}.

(** [sendMessage(message)].  The hook's cells and refs are not written; the
    outcome is what reaches the socket or the console.  [JSON.stringify] is the
    browser's ([None]: it throws, and so does [sendMessage]). *)
Inductive SendOutcome :=
| sent (h : nat) (text : string)
| warned
| threw.

Definition sendMessage {M : Type} (JSON_stringify : M -> option string)
    (message : M) (s : Hook) : SendOutcome :=
  match wsRef s with
  | Some h =>
      match sockets s !! h with
      | Some w =>
          if bool_decide (readyState w = OPEN)
          then match JSON_stringify message with
               | Some text => sent h text
               | None => threw
               end
          else warned
      | None => warned
      end
  | None => warned
  end.

(** The order in which a socket goes through its states. *)
Definition rank (r : ReadyState) : nat :=
  match r with
  | CONNECTING => 0
  | OPEN => 1
  | CLOSING => 2
  | CLOSED => 3
  end.

(** A later state of the same socket: same URL and closure, and a state that
    is not earlier in the order. *)
Definition advances (w w' : WebSocket) : Prop :=
  url w' = url w /\ ws_jobId w' = ws_jobId w /\ ws_enabled w' = ws_enabled w
  /\ (rank (readyState w) <= rank (readyState w'))%nat.

(** What [connect] writes into every socket it creates and [ws.onclose] into
    every timer, and where the two refs may point. *)
Definition socket_ok (w : WebSocket) : Prop :=
  ws_enabled w = true /\ ws_jobId w <> ""
  /\ url w = "ws://localhost:8000/api/v1/generate/" +:+ ws_jobId w.

Definition timeout_ok (t : Timeout) : Prop :=
  to_enabled t = true /\ to_jobId t <> "" /\ delay t ∈ backoff_delays.

Definition well_formed (s : Hook) : Prop :=
  (forall h, wsRef s = Some h -> (h < length (sockets s))%nat)
  /\ (forall id, reconnectTimeoutRef s = Some id -> (id < length (timeouts s))%nat)
  /\ Forall socket_ok (sockets s)
  /\ Forall timeout_ok (timeouts s).

End Socket.

(** ** [GenerationConsole]: the component that wires the two hooks together *)

Module Console.
Import Images Socket.

(** The state the component works on: its [useWebSocket] instance (called
    without [enabled], so with the default [true]), the [useGeneratedImages]
    cells it receives as props, and its own [expectedImageCount] cell. *)
Record App := {
  hook : Hook;
  gallery : State;
  expectedImageCount : Z;
}.

Definition initial : App :=
  {| hook := Socket.initial; gallery := Images.initial; expectedImageCount := 0 |}.

(** The [onMessage] observer handed to [useWebSocket]; [captured] and [now] are
    those of the [updateImage] it calls. *)
Definition onMessage (captured : option Z) (now : Z) (message : WebSocketMessage)
    (a : App) : App :=
  let h := emit log_25 (hook a) in
  match type message with
  | prediction_update =>
      {| hook := h; gallery := updateImage captured now (data message) (gallery a);
         expectedImageCount := expectedImageCount a |}
  | _ => {| hook := h; gallery := gallery a; expectedImageCount := expectedImageCount a |}
  end.

(** Whether that observer throws on a value handed to it by [ws.onmessage]:
    reading [message.type] throws on [null], and on no other value that JSON
    has; [updateImage] only queues a state update. *)
Definition onMessage_throws (message : JSON) : bool :=
  match message with
  | JNull => true
  | _ => false
  end.

(** [generateMutation.onSuccess], as far as it touches this state. *)
Definition onSuccess (B : Browser) (num_images : Z) (job_id : string) (a : App) : App :=
  {| hook := connect B true job_id (hook a);
     gallery := clearImages (gallery a);
     expectedImageCount := num_images |}.

(** [images.filter(img => img.status === 'succeeded').length] *)
Definition succeededCount (a : App) : Z := Z.of_nat (Images.succeededCount (gallery a)).

(** The body of the [useEffect] that disconnects when all expected images have
    succeeded. *)
Definition completionEffect (a : App) : App :=
  if bool_decide (0 < expectedImageCount a)
     && bool_decide (expectedImageCount a <= succeededCount a)
  then
    {| hook := disconnect (emit (log_all_completed (expectedImageCount a)) (hook a));
       gallery := gallery a;
       expectedImageCount := 0 |}
  else a.

Definition with_gallery (g : State) (a : App) : App :=
  {| hook := hook a; gallery := g; expectedImageCount := expectedImageCount a |}.

(** A browser event delivered to the component's hook. *)
Definition deliver (B : Browser) (i : Input) (a : App) : option App :=
  h ← step B i (hook a);
  Some {| hook := h; gallery := gallery a; expectedImageCount := expectedImageCount a |}.

(** A run of decoded messages handed to [onMessage] one after the other, each
    with the [firstImageArrivalTime] that the [updateImage] it reaches holds in
    its closure and with its clock reading. *)
Definition receive (ms : list (option Z * Z * WebSocketMessage)) (a : App) : App :=
  foldl (fun acc m => onMessage m.1.1 m.1.2 m.2 acc) a ms.

(** The payloads of the [prediction_update] messages of a run. *)
Definition updates (ms : list (option Z * Z * WebSocketMessage))
    : list (option Z * Z * GeneratedImage) :=
  omap (fun m => match type m.2 with
                 | prediction_update => Some (m.1, data m.2)
                 | _ => None
                 end) ms.

(** [updateImage] called once per payload, in order. *)
Definition updateAll (us : list (option Z * Z * GeneratedImage)) (st : State) : State :=
  foldl (fun acc u => updateImage u.1.1 u.1.2 u.2 acc) st us.

End Console.

(** ** The two forms: [GenerationConsole] and [LoginForm] *)

Module Forms.

(** A JavaScript string as its UTF-16 code units, for the fields whose
    characters the code looks at ([trim], [length]). *)
Definition JSString := list N.

Definition of_string (s : string) : JSString :=
  (fun a => N.of_nat (Ascii.nat_of_ascii a)) <$> String.list_ascii_of_string s.

(** The code units that [String.prototype.trim] strips: ECMAScript's WhiteSpace
    (TAB, VT, FF, SP, NBSP, ZWNBSP and the Unicode space separators) and
    LineTerminator (LF, CR, LS, PS). *)
Definition is_space (c : N) : bool :=
  ((c =? 9) || (c =? 10) || (c =? 11) || (c =? 12) || (c =? 13) || (c =? 32)
   || (c =? 160) || (c =? 5760) || ((8192 <=? c) && (c <=? 8202))
   || (c =? 8232) || (c =? 8233) || (c =? 8239) || (c =? 8287)
   || (c =? 12288) || (c =? 65279))%N.

Fixpoint trimStart (s : JSString) : JSString :=
  match s with
  | [] => []
  | c :: s' => if is_space c then trimStart s' else s
  end.

Definition trimEnd (s : JSString) : JSString := reverse (trimStart (reverse s)).

Definition trim (s : JSString) : JSString := trimEnd (trimStart s).

(** [GenerationRequest] *)
Record GenerationRequest := {
  prompt : JSString;
  num_images : Z;
  model : option JSString;
}.

(** [{[K in keyof GenerationRequest]?: string}]: a key is present when its
    field is [Some]. *)
Record GenerationErrors := {
  e_prompt : option string;
  e_num_images : option string;
  e_model : option string;
}.

Definition no_errors : GenerationErrors :=
  {| e_prompt := None; e_num_images := None; e_model := None |}.

Definition key (e : option string) : nat :=
  match e with
  | Some _ => 1
  | None => 0
  end.

(** [Object.keys(newErrors).length] *)
Definition count_keys (e : GenerationErrors) : nat :=
  (key (e_prompt e) + key (e_num_images e) + key (e_model e))%nat.

(** [useState] of [formData] in [GenerationConsole] *)
Definition initialFormData : GenerationRequest :=
  {| prompt := []; num_images := 5;
     model := Some (of_string "black-forest-labs/flux-schnell") |}.

(** [GenerationConsole.validateForm]: the errors it hands to [setErrors] and
    the boolean it returns. *)
Definition validateForm (formData : GenerationRequest) : GenerationErrors * bool :=
  let e1 :=
    if bool_decide (trim (prompt formData) = []) then
      Some "Please enter a prompt"
    else if bool_decide (length (trim (prompt formData)) < 3)%nat then
      Some "Prompt must be at least 3 characters"
    else None in
  let e2 :=
    if bool_decide (num_images formData < 5) || bool_decide (num_images formData > 20)
    then Some "Batch size must be between 5 and 20"
    else None in
  let newErrors := {| e_prompt := e1; e_num_images := e2; e_model := None |} in
  (newErrors, bool_decide (count_keys newErrors = 0%nat)).

Inductive Field := f_prompt | f_num_images | f_model.

(** A string is truthy when it is not empty. *)
Definition truthy (e : option string) : bool :=
  match e with
  | Some m => negb (bool_decide (m = ""))
  | None => false
  end.

(** [GenerationConsole.handleInputChange(field)(e)].  [value] is
    [e.target.value]; [parsed] is [parseInt(e.target.value)] ([None]: NaN).
    Setting a key to [undefined] leaves it without a message. *)
Definition handleInputChange (field : Field) (value : JSString) (parsed : option Z)
    (st : GenerationRequest * GenerationErrors) : GenerationRequest * GenerationErrors :=
  let '(formData, errors) := st in
  let formData' :=
    match field with
    | f_prompt =>
        {| prompt := value; num_images := num_images formData; model := model formData |}
    | f_num_images =>
        let n := match parsed with
                 | Some n => if bool_decide (n = 0) then 5 else n
                 | None => 5
                 end in
        {| prompt := prompt formData; num_images := n; model := model formData |}
    | f_model =>
        {| prompt := prompt formData; num_images := num_images formData;
           model := Some value |}
    end in
  let errors' :=
    match field with
    | f_prompt =>
        if truthy (e_prompt errors)
        then {| e_prompt := None; e_num_images := e_num_images errors;
                e_model := e_model errors |}
        else errors
    | f_num_images =>
        if truthy (e_num_images errors)
        then {| e_prompt := e_prompt errors; e_num_images := None;
                e_model := e_model errors |}
        else errors
    | f_model =>
        if truthy (e_model errors)
        then {| e_prompt := e_prompt errors; e_num_images := e_num_images errors;
                e_model := None |}
        else errors
    end in
  (formData', errors').

(** [LoginRequest] and [Partial<LoginRequest>] *)
Record LoginRequest := { username : JSString; password : JSString }.

Record LoginErrors := { e_username : option string; e_password : option string }.

(** [LoginForm.validateForm] *)
Definition validateLogin (formData : LoginRequest) : LoginErrors * bool :=
  let errors :=
    {| e_username := if bool_decide (trim (username formData) = [])
                     then Some "Username is required" else None;
       e_password := if bool_decide (trim (password formData) = [])
                     then Some "Password is required" else None |} in
  (errors,
   bool_decide ((key (e_username errors) + key (e_password errors))%nat = 0%nat)).

(** The [catch] of [LoginForm.handleSubmit]: the errors shown for a failed
    login, from [error?.response?.status] ([None]: no response or no status). *)
Definition loginFailure (status : option Z) : LoginErrors :=
  if bool_decide (status = Some 422) || bool_decide (status = Some 401)
  then {| e_username := Some "Invalid username or password";
          e_password := Some "Invalid username or password" |}
  else {| e_username := Some "An error occurred. Please try again.";
          e_password := None |}.

End Forms.

(** ** The auth token in [localStorage]: [useAuth] and the [api] interceptors *)

Module Auth.

(** [localStorage] and a request's headers: string keys, string values. *)
Abbreviation Storage := (gmap string string).
Abbreviation Headers := (gmap string string).

Definition getAuthToken (ls : Storage) : option string := ls !! "auth_token".

Definition setAuthToken (token : string) (ls : Storage) : Storage :=
  <["auth_token" := token]> ls.

Definition removeAuthToken (ls : Storage) : Storage := delete "auth_token" ls.

(** [!!getAuthToken()]: [null] and the empty string are falsy. *)
Definition isAuthenticated (ls : Storage) : bool :=
  match getAuthToken ls with
  | Some token => negb (bool_decide (token = ""))
  | None => false
  end.

(** The request interceptor of [api]: what it does to [config.headers]. *)
Definition requestInterceptor (ls : Storage) (headers : Headers) : Headers :=
  match ls !! "auth_token" with
  | Some token =>
      if negb (bool_decide (token = ""))
      then <["Authorization" := "Bearer " +:+ token]> headers
      else headers
  | None => headers
  end.

(** The error branch of the response interceptor: what it does to
    [localStorage] before it rejects; [status] is [error.response?.status]. *)
Definition responseError (status : option Z) (ls : Storage) : Storage :=
  if bool_decide (status = Some 401) then delete "auth_token" ls else ls.

(** [useLogin]: [onSuccess] stores the token, [onError] removes any token. *)
Definition login_onSuccess (access_token : string) (ls : Storage) : Storage :=
  setAuthToken access_token ls.

Definition login_onError (ls : Storage) : Storage := removeAuthToken ls.

(** [useLogout]'s [mutationFn] *)
Definition logout (ls : Storage) : Storage := removeAuthToken ls.

(** [useUser]'s [retry]: [status] is [error?.response?.status]. *)
Definition retry (failureCount : Z) (status : option Z) : bool :=
  if bool_decide (status = Some 401) then false else bool_decide (failureCount < 3).

(** [useVerifyToken]'s [queryFn]: [posted] tells whether the request resolved. *)
Definition verifyToken (posted : bool) (ls : Storage) : bool * Storage :=
  if posted then (true, ls) else (false, removeAuthToken ls).

(** [useAuthStatus]'s [isLoggedIn]: [user] stands for [!!user], [isValidToken]
    is [None] while the verification has no data. *)
Definition isLoggedIn (ls : Storage) (user : bool) (isValidToken : option bool) : bool :=
  isAuthenticated ls && user && negb (bool_decide (isValidToken = Some false)).

End Auth.

(** * Properties of the aggregator *)

Section ImagesFacts.
Import Images.

Implicit Types (st : State) (ev newImage r : GeneratedImage) (imgs : list GeneratedImage).

Lemma findIndex_Some {A} (p : A -> bool) (l : list A) i :
  findIndex p l = Some i ->
  exists x, l !! i = Some x /\ p x = true /\ findIndex p (take i l) = None.
Proof.
  revert i. induction l as [|y l IH]; intros i; simpl; [discriminate|].
  destruct (p y) eqn:Hy.
  - intros [= <-]. exists y. auto.
  - destruct (findIndex p l) as [j|] eqn:Hj; simpl; [|discriminate].
    intros [= <-]. destruct (IH j eq_refl) as (x & Hx & Hp & Hnone).
    exists x. simpl. rewrite Hy, Hnone. auto.
Qed.

Lemma findIndex_None {A} (p : A -> bool) (l : list A) :
  findIndex p l = None <-> Forall (fun x => p x = false) l.
Proof.
  induction l as [|y l IH]; simpl.
  - split; auto.
  - destruct (p y) eqn:Hy.
    + split; [discriminate|]. intros H. inversion H; congruence.
    + destruct (findIndex p l); simpl.
      * split; [discriminate|]. intros H. inversion H as [|? ? _ Hl]; subst.
        apply IH in Hl. discriminate.
      * split; auto. intros _. constructor; auto. apply IH. reflexivity.
Qed.

(** [findIndex] still reaches position [i] after the element there is replaced
    by another one that satisfies the test. *)
Lemma findIndex_insert {A} (p : A -> bool) (l : list A) i y :
  findIndex p l = Some i -> p y = true -> findIndex p (<[i := y]> l) = Some i.
Proof.
  revert i. induction l as [|x l IH]; intros i; simpl; [discriminate|].
  destruct (p x) eqn:Hx.
  - intros [= <-] Hy. simpl. rewrite Hy. reflexivity.
  - destruct (findIndex p l) as [j|] eqn:Hj; simpl; [|discriminate].
    intros [= <-] Hy. simpl. rewrite Hx, (IH j eq_refl Hy). reflexivity.
Qed.

Lemma same_id_true id img : same_id id img = true <-> prediction_id img = id.
Proof. unfold same_id. apply bool_decide_eq_true. Qed.

Lemma same_id_false id img : same_id id img = false <-> prediction_id img <> id.
Proof. unfold same_id. apply bool_decide_eq_false. Qed.

Lemma findIndex_absent id imgs :
  findIndex (same_id id) imgs = None <-> id ∉ ids imgs.
Proof.
  rewrite findIndex_None. unfold ids. rewrite Forall_forall, list_elem_of_fmap. split.
  - intros H (x & -> & Hx). apply H in Hx. apply same_id_false in Hx. congruence.
  - intros H x Hx. apply same_id_false. intros <-. apply H. eauto.
Qed.

Lemma ids_insert imgs i r ev :
  imgs !! i = Some r -> prediction_id r = prediction_id ev ->
  ids (<[i := ev]> imgs) = ids imgs.
Proof.
  intros Hi Hid. unfold ids. rewrite list_fmap_insert, <- Hid.
  apply list_insert_id. rewrite list_lookup_fmap, Hi. reflexivity.
Qed.

(** What [updateImage] does to the sequence of ids: nothing when the id is
    already there, a new head otherwise. *)
Lemma updateImage_ids c now ev st :
  ids (images (updateImage c now ev st)) =
  if decide (prediction_id ev ∈ ids (images st))
  then ids (images st)
  else prediction_id ev :: ids (images st).
Proof.
  unfold updateImage.
  destruct (findIndex _ (images st)) as [i|] eqn:Hf.
  - destruct (findIndex_Some _ _ _ Hf) as (x & Hx & Hp & _).
    apply same_id_true in Hp.
    assert (prediction_id ev ∈ ids (images st)) as Hin.
    { unfold ids. apply list_elem_of_fmap. exists x. split; [auto|].
      eapply list_elem_of_lookup_2; eauto. }
    rewrite decide_True by exact Hin. rewrite Hx.
    destruct (_ && _); simpl; [reflexivity|]. eapply ids_insert; eauto.
  - apply findIndex_absent in Hf. rewrite decide_False by exact Hf. reflexivity.
Qed.

Lemma updateImage_NoDup c now ev st :
  NoDup (ids (images st)) -> NoDup (ids (images (updateImage c now ev st))).
Proof.
  intros H. rewrite updateImage_ids. destruct (decide _); [auto|].
  constructor; auto.
Qed.

Lemma applyAll_NoDup evs st :
  NoDup (ids (images st)) -> NoDup (ids (images (applyAll evs st))).
Proof.
  revert st. induction evs as [|e evs IH]; intros st H; simpl; [auto|].
  apply IH. apply updateImage_NoDup, H.
Qed.

Lemma updateImage_fresh c now ev st :
  prediction_id ev ∉ ids (images st) ->
  images (updateImage c now ev st) = ev :: images st.
Proof.
  intros H. apply findIndex_absent in H. unfold updateImage. rewrite H. reflexivity.
Qed.

Lemma applyAll_distinct evs st :
  NoDup (ids (evs.*2) ++ ids (images st)) ->
  images (applyAll evs st) = reverse (evs.*2) ++ images st.
Proof.
  revert st. induction evs as [|[t e] evs IH]; intros st H; simpl in *; [reflexivity|].
  apply NoDup_cons in H as [Hnotin Hnd].
  assert (images (apply (t, e) st) = e :: images st) as He.
  { apply updateImage_fresh. simpl. intros Hin. apply Hnotin.
    apply elem_of_app. right. exact Hin. }
  rewrite IH.
  - rewrite He, reverse_cons, <- app_assoc. reflexivity.
  - rewrite He. simpl.
    apply NoDup_app in Hnd as (H1 & H2 & H3).
    apply NoDup_app. split; [exact H1|]. split.
    + intros x Hx Hx'. apply elem_of_cons in Hx' as [->|Hx'].
      * apply Hnotin. apply elem_of_app. left. exact Hx.
      * exact (H2 x Hx Hx').
    + constructor; [|exact H3]. intros Hin. apply Hnotin.
      apply elem_of_app. right. exact Hin.
Qed.

(** An event for an id that the collection already holds never touches
    [firstImageArrivalTime]. *)
Lemma updateImage_present_keeps_arrival c now ev st :
  prediction_id ev ∈ ids (images st) ->
  firstImageArrivalTime (updateImage c now ev st) = firstImageArrivalTime st.
Proof.
  intros Hin. unfold updateImage.
  destruct (findIndex _ (images st)) as [i|] eqn:Hf.
  - destruct (images st !! i); [|reflexivity]. destruct (_ && _); reflexivity.
  - apply findIndex_absent in Hf. contradiction.
Qed.

(** Once latched to a non-zero clock reading, the arrival time stays. *)
Lemma apply_keeps_latched e st t :
  firstImageArrivalTime st = Some t -> t <> 0 ->
  firstImageArrivalTime (apply e st) = Some t.
Proof.
  intros Ht Hne. unfold apply, updateImage.
  destruct (findIndex _ (images st)) as [i|].
  - destruct (images st !! i); [|exact Ht]. destruct (_ && _); exact Ht.
  - simpl. rewrite Ht. simpl. rewrite (bool_decide_eq_false_2 _ Hne), andb_false_r.
    reflexivity.
Qed.

Lemma recordFor_Some id imgs r :
  recordFor id imgs = Some r ->
  exists i, findIndex (same_id id) imgs = Some i /\ imgs !! i = Some r
            /\ prediction_id r = id.
Proof.
  unfold recordFor. destruct (findIndex _ imgs) as [i|] eqn:Hf; simpl; [|discriminate].
  intros Hr. exists i. split; [reflexivity|]. split; [exact Hr|].
  destruct (findIndex_Some _ _ _ Hf) as (x & Hx & Hp & _).
  apply same_id_true in Hp. congruence.
Qed.

(** After any [updateImage] for an id, the collection holds a record for it. *)
Lemma recordFor_after_update c now ev st :
  exists r, recordFor (prediction_id ev) (images (updateImage c now ev st)) = Some r
            /\ (status ev = succeeded -> status r = succeeded).
Proof.
  unfold updateImage.
  destruct (findIndex _ (images st)) as [i|] eqn:Hf.
  - destruct (findIndex_Some _ _ _ Hf) as (x & Hx & Hp & _). rewrite Hx.
    destruct (bool_decide (status x = succeeded)) eqn:Hsx; simpl.
    + destruct (bool_decide (status ev = succeeded)) eqn:Hse; simpl.
      * exists x. unfold recordFor. rewrite Hf. simpl. split; [exact Hx|].
        intros _. apply bool_decide_eq_true in Hsx. exact Hsx.
      * exists ev. unfold recordFor.
        rewrite (findIndex_insert _ _ _ ev Hf) by (apply same_id_true; reflexivity).
        simpl. split; [|auto].
        apply list_lookup_insert_eq. eapply lookup_lt_Some; eauto.
    + exists ev. unfold recordFor.
      rewrite (findIndex_insert _ _ _ ev Hf) by (apply same_id_true; reflexivity).
      simpl. split; [|auto].
      apply list_lookup_insert_eq. eapply lookup_lt_Some; eauto.
  - exists ev. unfold recordFor. simpl.
    assert (same_id (prediction_id ev) ev = true) as -> by (apply same_id_true; reflexivity).
    simpl. auto.
Qed.

End ImagesFacts.

Section ImagesClaims.
Import Images.

Implicit Types (st : State) (ev r : GeneratedImage).

(** C1, as stated, fails.  The collection holds one record, [p1], with status
    [succeeded] and one output; a stale [processing] event for [p1] arrives.
    [updateImage] finds index 0, the guard [existing.status === 'succeeded' &&
    newImage.status === 'succeeded'] is false, and the record is overwritten:
    the record for [p1] is now the [processing] payload with no outputs. *)
Lemma stale_processing_overwrites_succeeded :
  let r := mk "p1" succeeded ["https://x/1.png"] in
  let ev := mk "p1" processing [] in
  let st := {| images := [r]; firstImageArrivalTime := Some 1700000000000 |} in
  recordFor "p1" (images st) = Some r
  /\ status r = succeeded
  /\ status ev <> succeeded
  /\ recordFor "p1" (images (updateImage (firstImageArrivalTime st) 1700000000500 ev st))
     = Some ev
  /\ recordFor "p1" (images (updateImage (firstImageArrivalTime st) 1700000000500 ev st))
     <> Some r.
Proof. simpl. repeat split; discriminate. Qed.

(** C1, amended: when the record for an id has status [succeeded], an event for
    that id with any other status replaces the record in place with the event's
    payload: the position and every other record stay as they were, and so does
    [firstImageArrivalTime]; the record for the id is afterwards the event's
    payload. *)
Theorem succeeded_record_replaced_by_other_status c now ev st r :
  recordFor (prediction_id ev) (images st) = Some r ->
  status r = succeeded ->
  status ev <> succeeded ->
  exists i,
    images st !! i = Some r
    /\ updateImage c now ev st =
       {| images := <[i := ev]> (images st);
          firstImageArrivalTime := firstImageArrivalTime st |}
    /\ recordFor (prediction_id ev) (images (updateImage c now ev st)) = Some ev
    /\ ids (images (updateImage c now ev st)) = ids (images st)
    /\ (forall j, j <> i -> images (updateImage c now ev st) !! j = images st !! j).
Proof.
  intros Hr Hs Hne.
  destruct (recordFor_Some _ _ _ Hr) as (i & Hf & Hi & Hid).
  exists i. split; [exact Hi|].
  assert (updateImage c now ev st =
          {| images := <[i := ev]> (images st);
             firstImageArrivalTime := firstImageArrivalTime st |}) as Heq.
  { unfold updateImage. rewrite Hf, Hi.
    rewrite (bool_decide_eq_false_2 _ Hne), andb_false_r. reflexivity. }
  rewrite Heq. simpl. split; [reflexivity|]. split; [|split].
  - unfold recordFor.
    rewrite (findIndex_insert _ _ _ ev Hf) by (apply same_id_true; reflexivity).
    simpl. apply list_lookup_insert_eq. eapply lookup_lt_Some; eauto.
  - eapply ids_insert; eauto.
  - intros j Hj. apply list_lookup_insert_ne. auto.
Qed.

Lemma succeeded_record_replaced_by_other_status_witness :
  exists i,
    [mk "p1" starting []; mk "p2" succeeded ["https://x/2.png"]] !! i
      = Some (mk "p2" succeeded ["https://x/2.png"])
    /\ updateImage None 7 (mk "p2" failed [])
         {| images := [mk "p1" starting []; mk "p2" succeeded ["https://x/2.png"]];
            firstImageArrivalTime := None |}
       = {| images := <[i := mk "p2" failed []]>
                        [mk "p1" starting []; mk "p2" succeeded ["https://x/2.png"]];
            firstImageArrivalTime := None |}.
Proof.
  destruct (succeeded_record_replaced_by_other_status None 7 (mk "p2" failed [])
              {| images := [mk "p1" starting []; mk "p2" succeeded ["https://x/2.png"]];
                 firstImageArrivalTime := None |}
              (mk "p2" succeeded ["https://x/2.png"]))
    as (i & Hi & Heq & _).
  - reflexivity.
  - reflexivity.
  - discriminate.
  - exists i. split; [exact Hi | exact Heq].
Defined.

(** C2 on the source's own scenario: one id goes [starting], [processing],
    [succeeded].  The first event inserts the record; the next two find it and
    take the update path, which returns before the code that sets
    [firstImageArrivalTime].  One record has succeeded and the arrival time is
    still unset, whatever value the callback's closure holds and whatever the
    clock reads. *)
Theorem first_success_by_update_not_latched (c1 c2 c3 : option Z) (t1 t2 t3 : Z) :
  let st := updateImage c3 t3 (mk "p1" succeeded ["https://x/1.png"])
              (updateImage c2 t2 (mk "p1" processing [])
                 (updateImage c1 t1 (mk "p1" starting []) initial)) in
  images st = [mk "p1" succeeded ["https://x/1.png"]]
  /\ succeededCount st = 1%nat
  /\ firstImageArrivalTime st = None.
Proof.
  simpl. unfold updateImage. simpl. repeat split.
Qed.

(** C5: a [succeeded] event for an id whose record is already [succeeded]
    returns the state unchanged, whatever payload it carries; and after any
    [succeeded] event for an id, a further [succeeded] event for the same id,
    with the same or another payload, changes nothing. *)
Theorem succeeded_duplicate_is_noop :
  (forall c now ev st r,
     recordFor (prediction_id ev) (images st) = Some r ->
     status r = succeeded -> status ev = succeeded ->
     updateImage c now ev st = st)
  /\ (forall c1 n1 c2 n2 ev ev' st,
        status ev = succeeded -> status ev' = succeeded ->
        prediction_id ev' = prediction_id ev ->
        updateImage c2 n2 ev' (updateImage c1 n1 ev st) = updateImage c1 n1 ev st).
Proof.
  assert (forall c now ev st r,
     recordFor (prediction_id ev) (images st) = Some r ->
     status r = succeeded -> status ev = succeeded ->
     updateImage c now ev st = st) as Hnoop.
  { intros c now ev st r Hr Hs He.
    destruct (recordFor_Some _ _ _ Hr) as (i & Hf & Hi & _).
    unfold updateImage. rewrite Hf, Hi.
    rewrite (bool_decide_eq_true_2 _ Hs), (bool_decide_eq_true_2 _ He). reflexivity. }
  split; [exact Hnoop|].
  intros c1 n1 c2 n2 ev ev' st He He' Hid.
  destruct (recordFor_after_update c1 n1 ev st) as (r & Hr & Hs).
  apply (Hnoop c2 n2 ev' _ r); [rewrite Hid; exact Hr | auto | exact He'].
Qed.

Lemma succeeded_duplicate_is_noop_witness :
  let st := {| images := [mk "p1" succeeded ["https://x/1.png"]];
               firstImageArrivalTime := None |} in
  updateImage None 9 (mk "p1" succeeded ["https://bogus/9.png"]) st = st
  /\ updateImage None 4 (mk "p1" succeeded ["https://x/1.png"])
       (updateImage None 3 (mk "p1" succeeded ["https://x/1.png"]) initial)
     = updateImage None 3 (mk "p1" succeeded ["https://x/1.png"]) initial.
Proof.
  split.
  - apply (proj1 succeeded_duplicate_is_noop None 9
             (mk "p1" succeeded ["https://bogus/9.png"]) _
             (mk "p1" succeeded ["https://x/1.png"])); reflexivity.
  - apply (proj2 succeeded_duplicate_is_noop); reflexivity.
Defined.

(** C9: from the empty collection, no sequence of events produces two records
    with the same prediction id; events with pairwise distinct ids all end up in
    the collection, once each, the most recent first; and one [updateImage]
    leaves the sequence of ids as it was when the id is present and puts the
    new id at the head when it is not. *)
Theorem prediction_ids_unique (evs : list (Z * GeneratedImage)) :
  NoDup (ids (images (applyAll evs initial)))
  /\ (NoDup (ids (evs.*2)) -> images (applyAll evs initial) = reverse (evs.*2))
  /\ (forall c now ev st,
        ids (images (updateImage c now ev st)) =
        if decide (prediction_id ev ∈ ids (images st))
        then ids (images st)
        else prediction_id ev :: ids (images st)).
Proof.
  split; [|split].
  - apply applyAll_NoDup. constructor.
  - intros H. rewrite applyAll_distinct; simpl; rewrite app_nil_r; auto.
  - intros. apply updateImage_ids.
Qed.

Lemma prediction_ids_unique_witness :
  let evs := [(1, mk "a" starting []); (2, mk "b" starting []); (3, mk "c" succeeded ["u"])] in
  NoDup (ids (evs.*2))
  /\ images (applyAll evs initial)
     = [mk "c" succeeded ["u"]; mk "b" starting []; mk "a" starting []].
Proof.
  assert (NoDup (ids ([(1, mk "a" starting []); (2, mk "b" starting []);
                       (3, mk "c" succeeded ["u"])].*2))) as H.
  { apply (bool_decide_unpack _). vm_compute. exact I. }
  split; [exact H|].
  exact (proj1 (proj2 (prediction_ids_unique _)) H).
Defined.

End ImagesClaims.

(** * Properties of the connection hook *)

Section SocketFacts.
Import Images Socket.

Implicit Types (s : Hook) (B : Browser).

Lemma timeouts_WebSocket_close h args s :
  timeouts (WebSocket_close h args s) = timeouts s.
Proof.
  unfold WebSocket_close. destruct (sockets s !! h) as [w|]; [|reflexivity].
  destruct (readyState w); reflexivity.
Qed.

Lemma timeouts_connect B enabled jobId s :
  timeouts (connect B enabled jobId s) = timeouts s.
Proof.
  unfold connect. destruct (_ || _); [reflexivity|].
  destruct (WebSocket_constructs B _); simpl;
    destruct (wsRef s); simpl; auto using timeouts_WebSocket_close.
Qed.

Lemma delays_clearTimeout id s : delays (clearTimeout id s) = delays s.
Proof.
  unfold delays, clearTimeout. destruct (timeouts s !! id) as [t|] eqn:Ht; [|reflexivity].
  simpl. rewrite list_fmap_insert. simpl.
  apply list_insert_id. rewrite list_lookup_fmap, Ht. reflexivity.
Qed.

Lemma delays_disconnect s : delays (disconnect s) = delays s.
Proof.
  unfold disconnect, delays. simpl.
  set (s1 := match reconnectTimeoutRef s with Some id => clearTimeout id s | None => s end).
  assert (delay <$> timeouts s1 = delay <$> timeouts s) as <-.
  { subst s1. destruct (reconnectTimeoutRef s); [apply delays_clearTimeout|reflexivity]. }
  destruct (wsRef s1); simpl; [rewrite timeouts_WebSocket_close|]; reflexivity.
Qed.

Lemma reconnectDelay_below_ceiling (k : nat) :
  (k < maxReconnectAttempts)%nat ->
  reconnectDelay k = 1000 * 2 ^ Z.of_nat k /\ backoff_delays !! k = Some (reconnectDelay k).
Proof.
  unfold maxReconnectAttempts. intros Hk.
  do 5 (destruct k as [|k]; [vm_compute; auto|]). lia.
Qed.

Lemma delays_ws_onclose enabled jobId code reason s :
  delays (ws_onclose enabled jobId code reason s) =
  if negb (bool_decide (code = 1000))
     && bool_decide (reconnectAttemptsRef s < maxReconnectAttempts)%nat
     && enabled
  then delays s ++ [reconnectDelay (reconnectAttemptsRef s)]
  else delays s.
Proof.
  unfold ws_onclose, delays. simpl.
  destruct (_ && _ && _); simpl; [|reflexivity].
  rewrite fmap_app. reflexivity.
Qed.

Lemma delays_step B i s s' :
  step B i s = Some s' ->
  delays s' = delays s
  \/ exists k, (k < maxReconnectAttempts)%nat /\ delays s' = delays s ++ [reconnectDelay k].
Proof.
  destruct i as [enabled jobId| |h|h frame thr|h|h code reason|id]; simpl.
  - intros [= <-]. left. unfold delays. rewrite timeouts_connect. reflexivity.
  - intros [= <-]. left. apply delays_disconnect.
  - destruct (sockets s !! h) as [w|]; simpl; [|discriminate].
    destruct (bool_decide _); [|discriminate]. intros [= <-]. left. reflexivity.
  - destruct (sockets s !! h) as [w|]; simpl; [|discriminate].
    destruct (bool_decide _); [|discriminate]. intros [= <-]. left.
    unfold ws_onmessage. destruct (JSON_parse B frame); [destruct thr|]; reflexivity.
  - destruct (sockets s !! h) as [w|]; simpl; [|discriminate].
    destruct (bool_decide _); [discriminate|]. intros [= <-]. left. reflexivity.
  - destruct (sockets s !! h) as [w|]; simpl; [|discriminate].
    destruct (bool_decide _); [discriminate|]. intros [= <-].
    rewrite delays_ws_onclose. simpl.
    destruct (bool_decide (_ < _)%nat) eqn:Hk;
      [|left; rewrite andb_false_r; reflexivity].
    apply bool_decide_eq_true in Hk.
    destruct (_ && _ && _); [right|left; reflexivity].
    exists (reconnectAttemptsRef s). split; [exact Hk|reflexivity].
  - destruct (timeouts s !! id) as [t|] eqn:Ht; simpl; [|discriminate].
    destruct (pending t); [|discriminate]. intros [= <-]. left.
    unfold timeout_callback, delays. rewrite timeouts_connect. simpl.
    apply delays_clearTimeout.
Qed.

(** Every reconnect the hook ever schedules waits one of the five delays. *)
Lemma delays_reachable B inputs s0 s :
  run B inputs s0 = Some s ->
  Forall (fun d => d ∈ backoff_delays) (delays s0) ->
  Forall (fun d => d ∈ backoff_delays) (delays s).
Proof.
  revert s0. induction inputs as [|i inputs IH]; intros s0; simpl.
  - intros [= <-]. auto.
  - destruct (step B i s0) as [s1|] eqn:Hs; simpl; [|discriminate].
    intros Hrun H0. apply (IH s1 Hrun).
    destruct (delays_step _ _ _ _ Hs) as [->|(k & Hk & ->)]; [exact H0|].
    apply Forall_app. split; [exact H0|]. constructor; [|constructor].
    destruct (reconnectDelay_below_ceiling k Hk) as [_ Hl].
    eapply list_elem_of_lookup_2. exact Hl.
Qed.

Lemma clearTimeout_idemp id s : clearTimeout id (clearTimeout id s) = clearTimeout id s.
Proof.
  unfold clearTimeout. destruct (timeouts s !! id) as [t|] eqn:Ht; [|rewrite Ht; reflexivity].
  simpl. rewrite list_lookup_insert_eq by (eapply lookup_lt_Some; eauto). simpl.
  rewrite list_insert_insert_eq. reflexivity.
Qed.

(** [disconnect] twice is [disconnect] once. *)
Lemma disconnect_idempotent s : disconnect (disconnect s) = disconnect s.
Proof.
  destruct s as [ic er wr rr ra so ti tr].
  unfold disconnect, clearTimeout, WebSocket_close; simpl.
  destruct rr as [id|]; simpl.
  - destruct (ti !! id) as [t|] eqn:Ht; simpl.
    + assert (id < length ti)%nat as Hlt by (eapply lookup_lt_Some; eauto).
      destruct wr as [h|]; simpl.
      * destruct (so !! h) as [w|]; simpl; [destruct (readyState w); simpl|];
          rewrite list_lookup_insert_eq by exact Hlt; simpl;
          rewrite list_insert_insert_eq; reflexivity.
      * rewrite list_lookup_insert_eq by exact Hlt; simpl.
        rewrite list_insert_insert_eq. reflexivity.
    + destruct wr as [h|]; simpl.
      * destruct (so !! h) as [w|]; simpl; [destruct (readyState w); simpl|];
          rewrite Ht; reflexivity.
      * rewrite Ht. reflexivity.
  - destruct wr as [h|]; simpl; [|reflexivity].
    destruct (so !! h) as [w|]; simpl; [destruct (readyState w)|]; reflexivity.
Qed.

End SocketFacts.

Section SocketClaims.
Import Images Socket.

Implicit Types (s : Hook) (B : Browser).

(** C3, as stated, fails at its sixth delay.  One [connect], then five unclean
    closes (code 1006), each followed by its reconnect timer, then a sixth
    unclean close of the socket the fifth reconnect opened.  The five timers
    waited 1000, 2000, 4000, 8000 and 16000 ms.  At the sixth close
    [reconnectAttemptsRef.current] is 5, the guard [< maxReconnectAttempts] is
    false, and no timer is created: no delay of 30000 ms is ever scheduled. *)
Lemma sixth_unclean_close_schedules_nothing :
  (fun s => (reconnectAttemptsRef s, delays s, scheduled s))
    <$> run test_browser
          (do_connect true "job" :: failures_from 0 5 ++ [on_close 5 1006 ""]) initial
  = Some (5%nat, [1000; 2000; 4000; 8000; 16000], [])
  /\ reconnectDelay 5 = 30000
  /\ 30000 ∉ [1000; 2000; 4000; 8000; 16000].
Proof.
  split; [vm_compute; reflexivity|]. split; [vm_compute; reflexivity|].
  intros H. repeat (apply elem_of_cons in H as [H|H]; [discriminate|]).
  inversion H.
Qed.

(** C3, amended: on an unclean close with the client enabled and an attempt
    counter [k] below 5, [ws.onclose] schedules one reconnect for the same job
    after [min(1000 * 2^k, 30000) = 1000 * 2^k] ms, the [k]-th of 1000, 2000,
    4000, 8000, 16000; with the counter at 5 or more it schedules nothing.  Five
    unclean closes in a row wait exactly those five delays, and in every
    reachable state every delay ever scheduled is one of the five: the 30000 ms
    cap is never reached. *)
Theorem reconnect_backoff_schedule enabled jobId code reason s :
  code <> 1000 -> enabled = true ->
  let k := reconnectAttemptsRef s in
  let s' := ws_onclose enabled jobId code reason s in
  ((k < 5)%nat ->
     timeouts s' = timeouts s ++
       [{| delay := Z.min (1000 * 2 ^ Z.of_nat k) 30000; pending := true;
           to_jobId := jobId; to_enabled := true |}]
     /\ reconnectTimeoutRef s' = Some (length (timeouts s))
     /\ Z.min (1000 * 2 ^ Z.of_nat k) 30000 = 1000 * 2 ^ Z.of_nat k
     /\ [1000; 2000; 4000; 8000; 16000] !! k = Some (1000 * 2 ^ Z.of_nat k))
  /\ ((5 <= k)%nat ->
        timeouts s' = timeouts s /\ reconnectTimeoutRef s' = reconnectTimeoutRef s)
  /\ delays <$> run test_browser (do_connect true "job" :: failures_from 0 5) initial
     = Some [1000; 2000; 4000; 8000; 16000]
  /\ (forall B inputs s1,
        run B inputs initial = Some s1 ->
        Forall (fun d => d ∈ [1000; 2000; 4000; 8000; 16000]) (delays s1)).
Proof.
  intros Hcode -> k s'. subst k s'. split; [|split; [|split]].
  - intros Hk. unfold ws_onclose. simpl.
    rewrite (bool_decide_eq_false_2 _ Hcode). simpl.
    rewrite bool_decide_eq_true_2 by exact Hk. simpl.
    destruct (reconnectDelay_below_ceiling _ Hk) as [H1 H2].
    unfold reconnectDelay in *. rewrite H1 in H2.
    repeat split; [exact H1 | exact H2].
  - intros Hk. unfold ws_onclose. simpl.
    rewrite (bool_decide_eq_false_2 (_ < _)%nat) by (unfold maxReconnectAttempts; lia).
    rewrite andb_false_r. simpl. auto.
  - vm_compute. reflexivity.
  - intros B inputs s1 Hrun. apply (delays_reachable _ _ _ _ Hrun). constructor.
Qed.

Lemma reconnect_backoff_schedule_witness :
  timeouts (ws_onclose true "job" 1006 "" (set_reconnectAttemptsRef 3 initial))
  = [{| delay := Z.min (1000 * 2 ^ Z.of_nat 3) 30000; pending := true;
        to_jobId := "job"; to_enabled := true |}]
  /\ timeouts (ws_onclose true "job" 1006 "" (set_reconnectAttemptsRef 5 initial)) = [].
Proof.
  split.
  - apply (proj1 (reconnect_backoff_schedule true "job" 1006 ""
                    (set_reconnectAttemptsRef 3 initial) ltac:(discriminate) eq_refl)).
    simpl. lia.
  - apply (proj1 (proj2 (reconnect_backoff_schedule true "job" 1006 ""
                           (set_reconnectAttemptsRef 5 initial) ltac:(discriminate) eq_refl))).
    simpl. lia.
Defined.

(** C4 on a concrete run: [connect("A")], then [connect("B")] while A's socket
    is still connecting.  [connect] calls [close()] on A's socket with no code
    ([disconnect] passes 1000) and leaves its handlers in place.  The browser
    reports the aborted connection with code 1006; A's [onclose] clears
    [wsRef], which by then pointed to B's socket, and schedules a reconnect to
    A after 1000 ms.  When that timer fires, [connect("A")] finds [wsRef] empty,
    closes nothing and opens a second socket: the sockets of B and of A are
    both live. *)
Theorem reentrant_connect_leaves_two_live_transports :
  (fun s => (close_args <$> sockets s, wsRef s))
    <$> run test_browser [do_connect true "A"; do_connect true "B"] initial
  = Some ([Some None; None], Some 1%nat)
  /\ (fun s => (wsRef s, scheduled s))
       <$> run test_browser
             [do_connect true "A"; do_connect true "B"; on_close 0 1006 ""] initial
     = Some (None, [{| delay := 1000; pending := true; to_jobId := "A"; to_enabled := true |}])
  /\ (fun s => (ws_jobId <$> live s, readyState <$> sockets s, wsRef s))
       <$> run test_browser
             [do_connect true "A"; do_connect true "B"; on_close 0 1006 ""; on_timeout 0]
             initial
     = Some (["B"; "A"], [CLOSED; CONNECTING; CONNECTING], Some 2%nat).
Proof. repeat split. Qed.

(** C6: [ws.onclose] with code 1000 creates no timer, whatever the attempt
    counter and the [enabled] flag are: the timers, the timer ref and the
    counter are as before, the console shows the close and nothing about a
    reconnect, and the same holds when the browser delivers the event. *)
Theorem clean_close_schedules_no_reconnect enabled jobId reason s :
  let s' := ws_onclose enabled jobId 1000 reason s in
  timeouts s' = timeouts s
  /\ reconnectTimeoutRef s' = reconnectTimeoutRef s
  /\ reconnectAttemptsRef s' = reconnectAttemptsRef s
  /\ trace s' = trace s ++ [log_closed 1000 reason; call_onDisconnect]
  /\ wsRef s' = None
  /\ isConnected s' = false
  /\ (forall B h s1,
        step B (on_close h 1000 reason) s = Some s1 ->
        timeouts s1 = timeouts s /\ scheduled s1 = scheduled s).
Proof.
  simpl. unfold ws_onclose. simpl. do 3 (split; [reflexivity|]).
  split; [rewrite <- app_assoc; reflexivity|]. do 2 (split; [reflexivity|]).
  intros B h s1. destruct (sockets s !! h) as [w|]; simpl; [|discriminate].
  destruct (bool_decide _); [discriminate|]. intros [= <-]. split; reflexivity.
Qed.

Lemma clean_close_schedules_no_reconnect_witness :
  step test_browser (on_close 0 1000 "Manual disconnect")
    (connect test_browser true "job" initial)
  = Some (ws_onclose true "job" 1000 "Manual disconnect"
            (set_sockets [{| url := "ws://localhost:8000/api/v1/generate/job";
                             readyState := CLOSED; close_args := None;
                             ws_jobId := "job"; ws_enabled := true |}]
               (connect test_browser true "job" initial)))
  /\ timeouts (ws_onclose true "job" 1000 "Manual disconnect"
                 (set_sockets [{| url := "ws://localhost:8000/api/v1/generate/job";
                                  readyState := CLOSED; close_args := None;
                                  ws_jobId := "job"; ws_enabled := true |}]
                    (connect test_browser true "job" initial)))
     = timeouts (connect test_browser true "job" initial).
Proof.
  assert (step test_browser (on_close 0 1000 "Manual disconnect")
            (connect test_browser true "job" initial)
          = Some (ws_onclose true "job" 1000 "Manual disconnect"
                    (set_sockets [{| url := "ws://localhost:8000/api/v1/generate/job";
                                     readyState := CLOSED; close_args := None;
                                     ws_jobId := "job"; ws_enabled := true |}]
                       (connect test_browser true "job" initial)))) as H
    by reflexivity.
  split; [exact H|].
  exact (proj1 (proj2 (proj2 (proj2 (proj2 (proj2 (proj2
           (clean_close_schedules_no_reconnect true "job" "Manual disconnect"
              (connect test_browser true "job" initial)))))))
           test_browser 0%nat _ H)).
Defined.

(** C7 on a concrete run: A's socket closes uncleanly and a reconnect to A is
    scheduled (timer 0); the caller connects to job B; B's socket closes
    uncleanly too and [onclose] stores timer 1 in [reconnectTimeoutRef] over
    timer 0.  [disconnect()] clears timer 1 only.  Timer 0 is still pending,
    fires, and [connect("A")] opens a socket after the disconnect. *)
Theorem disconnect_misses_superseded_timer :
  (fun s => (reconnectTimeoutRef s, pending <$> timeouts s, to_jobId <$> scheduled s,
             ws_jobId <$> live s))
    <$> run test_browser
          [do_connect true "A"; on_close 0 1006 ""; do_connect true "B";
           on_close 1 1006 ""; do_disconnect] initial
  = Some (Some 1%nat, [true; false], ["A"], [])
  /\ (fun s => (ws_jobId <$> live s, wsRef s, reconnectAttemptsRef s))
       <$> run test_browser
             [do_connect true "A"; on_close 0 1006 ""; do_connect true "B";
              on_close 1 1006 ""; do_disconnect; on_timeout 0] initial
     = Some (["A"], Some 2%nat, 1%nat).
Proof. repeat split. Qed.

(** C8, as stated, fails.  The socket of job [job] is open and the frame [null]
    arrives.  [JSON.parse] returns [null], which is not a [WebSocketMessage];
    nothing checks that, and [ws.onmessage] logs the value and calls
    [onMessage] with it.  (The observer of [GenerationConsole] then throws on
    reading [message.type], which the [catch] logs.) *)
Lemma null_frame_reaches_onMessage :
  JSON_parse test_browser "null" = Some JNull
  /\ as_message JNull = None
  /\ (s ← run test_browser [do_connect true "job"; on_open 0] initial;
      trace <$> step test_browser
                  (on_message 0 "null" (Console.onMessage_throws JNull)) s)
     = Some [log_connecting "ws://localhost:8000/api/v1/generate/job";
             log_connected; call_onConnect;
             log_message JNull; call_onMessage JNull; error_parse]
  /\ (s ← run test_browser [do_connect true "job"; on_open 0] initial;
      trace <$> step test_browser (on_message 0 "null" false) s)
     = Some [log_connecting "ws://localhost:8000/api/v1/generate/job";
             log_connected; call_onConnect;
             log_message JNull; call_onMessage JNull].
Proof. repeat split. Qed.

(** C8, amended: when [JSON.parse] throws on a frame, [ws.onmessage] only
    writes the error to the console and [onMessage] is not called.  A frame
    that [JSON.parse] accepts is not validated: the value, whatever its shape,
    is logged and handed to [onMessage], and an observer that throws on it is
    caught and logged.  In every case the connected flag, the error state, the
    socket and the timers are untouched, and an open socket stays open. *)
Theorem decode_failure_is_dropped B frame observer_throws s :
  let s' := ws_onmessage B frame observer_throws s in
  (JSON_parse B frame = None -> trace s' = trace s ++ [error_parse])
  /\ (forall v, JSON_parse B frame = Some v ->
        trace s' = trace s ++ [log_message v; call_onMessage v]
                     ++ (if observer_throws then [error_parse] else []))
  /\ isConnected s' = isConnected s
  /\ error s' = error s
  /\ wsRef s' = wsRef s
  /\ sockets s' = sockets s
  /\ timeouts s' = timeouts s
  /\ reconnectTimeoutRef s' = reconnectTimeoutRef s
  /\ reconnectAttemptsRef s' = reconnectAttemptsRef s
  /\ (forall h w, sockets s !! h = Some w -> readyState w = OPEN ->
        step B (on_message h frame observer_throws) s = Some s'
        /\ readyState <$> sockets s' !! h = Some OPEN).
Proof.
  simpl. split; [|split].
  - intros Hp. unfold ws_onmessage. rewrite Hp. reflexivity.
  - intros v Hp. unfold ws_onmessage. rewrite Hp.
    destruct observer_throws; simpl; rewrite <- !app_assoc; reflexivity.
  - assert (sockets (ws_onmessage B frame observer_throws s) = sockets s) as Hs.
    { unfold ws_onmessage.
      destruct (JSON_parse B frame); [destruct observer_throws|]; reflexivity. }
    do 3 (split; [unfold ws_onmessage;
                  destruct (JSON_parse B frame); [destruct observer_throws|];
                  reflexivity|]).
    split; [exact Hs|].
    do 3 (split; [unfold ws_onmessage;
                  destruct (JSON_parse B frame); [destruct observer_throws|];
                  reflexivity|]).
    intros h w Hw Hopen. split.
    + cbn [step]. rewrite Hw. cbn [mbind option_bind].
      rewrite bool_decide_eq_true_2 by exact Hopen. reflexivity.
    + rewrite Hs, Hw. simpl. congruence.
Qed.

Lemma decode_failure_is_dropped_witness :
  JSON_parse test_browser "not json" = None
  /\ trace (ws_onmessage test_browser "not json" false
              (connect test_browser true "job" initial))
     = trace (connect test_browser true "job" initial) ++ [error_parse].
Proof.
  split; [reflexivity|].
  apply (proj1 (decode_failure_is_dropped test_browser "not json" false
                  (connect test_browser true "job" initial)) eq_refl).
Defined.

End SocketClaims.

(** * Properties of the auto-disconnect effect *)

Section ConsoleClaims.
Import Images Socket Console.

Implicit Types (a : App) (s : Hook).

(** What [disconnect] leaves behind: no socket in [wsRef], the connected flag
    and the error cleared, the timer named by [reconnectTimeoutRef] no longer
    pending, and a live socket that [wsRef] named now closing with code 1000. *)
Lemma disconnect_effects s :
  wsRef (disconnect s) = None
  /\ isConnected (disconnect s) = false
  /\ Socket.error (disconnect s) = None
  /\ (forall id t, reconnectTimeoutRef s = Some id -> timeouts s !! id = Some t ->
        pending <$> timeouts (disconnect s) !! id = Some false)
  /\ (forall h w, wsRef s = Some h -> sockets s !! h = Some w -> is_live w = true ->
        close_args <$> sockets (disconnect s) !! h
        = Some (Some (Some (1000, "Manual disconnect")))
        /\ readyState <$> sockets (disconnect s) !! h = Some CLOSING).
Proof.
  destruct s as [ic er wr rr ra so ti tr].
  unfold disconnect, clearTimeout, WebSocket_close; simpl.
  split; [|split; [|split; [|split]]].
  - destruct rr as [id|]; simpl; [destruct (ti !! id); simpl|];
      (destruct wr; reflexivity).
  - reflexivity.
  - reflexivity.
  - intros id t -> Ht. rewrite Ht. simpl.
    assert (id < length ti)%nat as Hlt by (eapply lookup_lt_Some; eauto).
    destruct wr as [h|]; simpl;
      [destruct (so !! h) as [w|]; simpl; [destruct (readyState w); simpl|]|];
      rewrite list_lookup_insert_eq by exact Hlt; reflexivity.
  - intros h w -> Hw Hlive.
    assert (h < length so)%nat as Hlt by (eapply lookup_lt_Some; eauto).
    unfold is_live in Hlive.
    destruct rr as [id|]; simpl; [destruct (ti !! id); simpl|]; rewrite Hw;
      destruct (readyState w); try discriminate; simpl;
      rewrite list_lookup_insert_eq by exact Hlt; auto.
Qed.

(** The effect does nothing while the expected count is 0 or not yet reached. *)
Lemma completionEffect_idle a :
  expectedImageCount a <= 0 \/ Console.succeededCount a < expectedImageCount a ->
  completionEffect a = a.
Proof.
  intros H. unfold completionEffect.
  destruct (bool_decide (0 < expectedImageCount a)) eqn:H1; [|reflexivity].
  destruct (bool_decide (expectedImageCount a <= Console.succeededCount a)) eqn:H2;
    [|reflexivity].
  apply bool_decide_eq_true in H1, H2. lia.
Qed.

(** X30.  When the expected count is positive and at least that many records
    have succeeded, the effect calls [disconnect] once, on the hook as it
    stands, and sets the expected count to 0.  The socket that [wsRef] names at
    that moment, if live, is closing with code 1000; a socket that [wsRef] does
    not name is not touched.  Afterwards [wsRef] is empty and the connected
    flag is off, and with the count at 0 the effect does nothing on any later
    run, whatever the images have become. *)
Theorem completion_disconnects_once a :
  0 < expectedImageCount a ->
  expectedImageCount a <= Console.succeededCount a ->
  let a' := completionEffect a in
  hook a' = disconnect (emit (log_all_completed (expectedImageCount a)) (hook a))
  /\ gallery a' = gallery a
  /\ expectedImageCount a' = 0
  /\ wsRef (hook a') = None
  /\ isConnected (hook a') = false
  /\ (forall h w, wsRef (hook a) = Some h -> sockets (hook a) !! h = Some w ->
        is_live w = true ->
        close_args <$> sockets (hook a') !! h
        = Some (Some (Some (1000, "Manual disconnect"))))
  /\ (forall g, completionEffect (with_gallery g a') = with_gallery g a').
Proof.
  intros H1 H2. simpl. unfold completionEffect.
  rewrite (bool_decide_eq_true_2 _ H1), (bool_decide_eq_true_2 _ H2). simpl.
  set (s := emit (log_all_completed (expectedImageCount a)) (hook a)).
  destruct (disconnect_effects s) as (Hw & Hc & _ & _ & Hclose).
  do 3 (split; [reflexivity|]). split; [exact Hw|]. split; [exact Hc|]. split.
  - intros h w Hh Hs Hlive. apply (Hclose h w); assumption.
  - intros g. reflexivity.
Qed.

Lemma completion_disconnects_once_witness :
  let g := {| images := [mk "e" succeeded ["u5"]; mk "d" succeeded ["u4"];
                         mk "c" succeeded ["u3"]; mk "b" succeeded ["u2"];
                         mk "a" succeeded ["u1"]];
              firstImageArrivalTime := None |} in
  let a := with_gallery g (onSuccess test_browser 5 "job" Console.initial) in
  expectedImageCount (completionEffect a) = 0
  /\ close_args <$> sockets (hook (completionEffect a)) !! 0%nat
     = Some (Some (Some (1000, "Manual disconnect"))).
Proof.
  pose proof (completion_disconnects_once
    (with_gallery {| images := [mk "e" succeeded ["u5"]; mk "d" succeeded ["u4"];
                                mk "c" succeeded ["u3"]; mk "b" succeeded ["u2"];
                                mk "a" succeeded ["u1"]];
                     firstImageArrivalTime := None |}
       (onSuccess test_browser 5 "job" Console.initial))
    ltac:(reflexivity) ltac:(discriminate)) as (_ & _ & He & _ & _ & Hc & _).
  split; [exact He|].
  eapply Hc; reflexivity.
Defined.

(** C10 on a concrete run: job A is submitted and its socket opens; job B is
    submitted, so [connect] calls [close()] on A's socket and opens B's; A's
    close event arrives with code 1005 and its [onclose] clears [wsRef], which
    held B's socket; B's socket opens and B's five images succeed.  The effect's
    condition holds, it calls [disconnect()] once and resets the count, but
    [disconnect] finds [wsRef] empty and closes nothing: B's socket is still
    open, with no [close] call made on it, while the connected flag is off. *)
Theorem completion_leaves_superseding_socket_open :
  let B := test_browser in
  let succeeded_update (id u : string) : option Z * Z * WebSocketMessage :=
    (None, 0, {| type := prediction_update; data := mk id succeeded [u] |}) in
  (a1 ← deliver B (on_open 0) (onSuccess B 5 "A" Console.initial);
   a2 ← deliver B (on_close 0 1005 "") (onSuccess B 5 "B" a1);
   a3 ← deliver B (on_open 1) a2;
   let a4 := receive [succeeded_update "p1" "u1"; succeeded_update "p2" "u2";
                      succeeded_update "p3" "u3"; succeeded_update "p4" "u4";
                      succeeded_update "p5" "u5"] a3 in
   let a5 := completionEffect a4 in
   Some (expectedImageCount a4, Console.succeededCount a4, wsRef (hook a4),
         expectedImageCount a5,
         (fun w => (ws_jobId w, readyState w, close_args w)) <$> sockets (hook a5),
         ws_jobId <$> live (hook a5),
         isConnected (hook a5)))
  = Some (5, 5, None, 0,
          [("A", CLOSED, Some None); ("B", OPEN, None)], ["B"], false).
Proof. vm_compute. reflexivity. Qed.

End ConsoleClaims.

(** * More on the aggregator *)

Section ImagesMore.
Import Images.

Implicit Types (st : State) (ev r : GeneratedImage) (imgs : list GeneratedImage).

Lemma recordFor_cons id x imgs :
  recordFor id (x :: imgs) = if same_id id x then Some x else recordFor id imgs.
Proof.
  unfold recordFor. simpl. destruct (same_id id x); [reflexivity|].
  destruct (findIndex (same_id id) imgs); reflexivity.
Qed.

Lemma recordFor_insert_other id imgs i r ev :
  imgs !! i = Some r -> prediction_id r = prediction_id ev -> id <> prediction_id ev ->
  recordFor id (<[i := ev]> imgs) = recordFor id imgs.
Proof.
  revert i. induction imgs as [|x imgs IH]; intros i Hi Hr Hne; [reflexivity|].
  destruct i as [|i]; simpl in *.
  - injection Hi as ->. rewrite !recordFor_cons.
    assert (same_id id ev = false) as -> by (apply same_id_false; congruence).
    assert (same_id id r = false) as -> by (apply same_id_false; congruence).
    reflexivity.
  - rewrite !recordFor_cons. rewrite (IH i Hi Hr Hne). reflexivity.
Qed.

Lemma recordFor_None id imgs : recordFor id imgs = None <-> id ∉ ids imgs.
Proof.
  rewrite <- findIndex_absent. unfold recordFor.
  destruct (findIndex (same_id id) imgs) as [i|] eqn:Hf; simpl; [|tauto].
  destruct (findIndex_Some _ _ _ Hf) as (x & Hx & _). rewrite Hx. split; discriminate.
Qed.

Lemma applyAll_ids_elem (evs : list (Z * GeneratedImage)) st id :
  id ∈ ids (images (applyAll evs st)) <-> id ∈ ids (images st) \/ id ∈ ids (evs.*2).
Proof.
  revert st. induction evs as [|[t e] evs IH]; intros st; simpl.
  - split; [auto|]. intros [H|H]; [exact H|]. inversion H.
  - rewrite IH. unfold apply. simpl. rewrite updateImage_ids.
    destruct (decide (prediction_id e ∈ ids (images st))) as [Hin|Hout].
    + rewrite elem_of_cons. split; [tauto|]. intros [H|[->|H]]; auto.
    + rewrite !elem_of_cons. tauto.
Qed.

(** X1.  An id that the collection holds, or that an event carries, is in the
    collection afterwards, and no other id is: [updateImage] never removes a
    record and never invents one. *)
Theorem observed_ids_are_kept (evs : list (Z * GeneratedImage)) st id :
  id ∈ ids (images (applyAll evs st)) <-> id ∈ ids (images st) \/ id ∈ ids (evs.*2).
Proof. apply applyAll_ids_elem. Qed.

(** X2.  An event for one prediction id leaves the record of every other id as
    it was. *)
Theorem other_records_untouched c now ev st id :
  id <> prediction_id ev ->
  recordFor id (images (updateImage c now ev st)) = recordFor id (images st).
Proof.
  intros Hne. unfold updateImage.
  destruct (findIndex _ (images st)) as [i|] eqn:Hf.
  - destruct (findIndex_Some _ _ _ Hf) as (x & Hx & Hp & _). rewrite Hx.
    apply same_id_true in Hp.
    destruct (_ && _); simpl; [reflexivity|].
    eapply recordFor_insert_other; eauto.
  - simpl. rewrite recordFor_cons.
    assert (same_id id ev = false) as -> by (apply same_id_false; congruence).
    reflexivity.
Qed.

Lemma other_records_untouched_witness :
  recordFor "p1"
    (images (updateImage None 5 (mk "p2" failed [])
               {| images := [mk "p2" processing []; mk "p1" succeeded ["u"]];
                  firstImageArrivalTime := None |}))
  = Some (mk "p1" succeeded ["u"]).
Proof.
  rewrite (other_records_untouched None 5 (mk "p2" failed []) _ "p1");
    [reflexivity | discriminate].
Defined.

(** X3.  After [updateImage] the record for the event's id is the event's
    payload, unless the stored record and the event are both [succeeded], when
    the stored record stays.  So a [failed] or [canceled] record is overwritten
    by whatever comes next for its id, a later [succeeded] included. *)
Theorem record_after_update c now ev st :
  recordFor (prediction_id ev) (images (updateImage c now ev st)) =
  match recordFor (prediction_id ev) (images st) with
  | Some existing =>
      if bool_decide (status existing = succeeded) && bool_decide (status ev = succeeded)
      then Some existing
      else Some ev
  | None => Some ev
  end.
Proof.
  unfold updateImage, recordFor at 2.
  destruct (findIndex _ (images st)) as [i|] eqn:Hf; simpl.
  - destruct (findIndex_Some _ _ _ Hf) as (x & Hx & Hp & _). rewrite Hx.
    destruct (_ && _) eqn:Hg; simpl.
    + unfold recordFor. rewrite Hf. simpl. exact Hx.
    + unfold recordFor.
      rewrite (findIndex_insert _ _ _ ev Hf) by (apply same_id_true; reflexivity).
      simpl. apply list_lookup_insert_eq. eapply lookup_lt_Some; eauto.
  - rewrite recordFor_cons.
    assert (same_id (prediction_id ev) ev = true) as -> by (apply same_id_true; reflexivity).
    reflexivity.
Qed.

(** X4.  The three derived counts and the [canceled] records, which no count
    covers, add up to the total. *)
Theorem counts_partition st :
  totalImages st =
  (succeededCount st + processingCount st + failedCount st
   + length (getImagesByStatus canceled st))%nat.
Proof.
  unfold totalImages, succeededCount, processingCount, failedCount, getImagesByStatus.
  induction (images st) as [|x l IH]; [reflexivity|].
  rewrite !filter_cons. simpl length. rewrite IH.
  destruct (status x) eqn:Hs;
    repeat (destruct (decide _) as [Hd|Hd];
            try (exfalso; (discriminate Hd
                           || (destruct Hd; discriminate)
                           || (apply Hd; auto; fail))));
    simpl; lia.
Qed.

(** X5.  [getSucceededImages] keeps the succeeded records that have a URL: it
    is [getImagesByStatus('succeeded')] filtered once more, never longer than
    [succeededCount], and the same list when every succeeded record has a URL. *)
Theorem succeeded_images_have_urls st :
  getSucceededImages st
  = filter (fun img => (0 < length (urls img))%nat) (getImagesByStatus succeeded st)
  /\ (length (getSucceededImages st) <= succeededCount st)%nat
  /\ (Forall (fun img => status img = succeeded -> urls img <> []) (images st) ->
      getSucceededImages st = getImagesByStatus succeeded st).
Proof.
  unfold getSucceededImages, getImagesByStatus, succeededCount.
  assert (filter (fun img => status img = succeeded /\ (0 < length (urls img))%nat)
            (images st)
          = filter (fun img => (0 < length (urls img))%nat)
              (filter (fun img => status img = succeeded) (images st))) as Heq.
  { induction (images st) as [|x l IH]; [reflexivity|].
    rewrite !filter_cons.
    destruct (decide (status x = succeeded)) as [Hs|Hs].
    - rewrite filter_cons.
      destruct (decide (0 < length (urls x))%nat) as [Hu|Hu].
      + rewrite decide_True by auto. rewrite IH. reflexivity.
      + rewrite decide_False by tauto. exact IH.
    - rewrite decide_False by tauto. exact IH. }
  split; [exact Heq|]. split.
  - rewrite Heq. apply length_filter.
  - intros Hall. clear Heq. induction (images st) as [|x l IH]; [reflexivity|].
    apply Forall_cons in Hall as [Hx Hl].
    rewrite !filter_cons.
    destruct (decide (status x = succeeded)) as [Hs|Hs].
    + rewrite decide_True; [f_equal; apply IH, Hl|].
      split; [exact Hs|]. specialize (Hx Hs). destruct (urls x); [congruence|simpl; lia].
    + rewrite decide_False by tauto. apply IH, Hl.
Qed.

(** X6.  From the empty collection, the number of records is the number of
    distinct prediction ids among the events: duplicates of an id never add a
    record. *)
Theorem total_is_number_of_distinct_ids (evs : list (Z * GeneratedImage)) :
  totalImages (applyAll evs initial) = length (remove_dups (ids (evs.*2))).
Proof.
  unfold totalImages.
  transitivity (length (ids (images (applyAll evs initial)))).
  - unfold ids. rewrite length_fmap. reflexivity.
  - apply Permutation_length. apply NoDup_Permutation.
    + apply applyAll_NoDup. constructor.
    + apply NoDup_remove_dups.
    + intros id. rewrite applyAll_ids_elem, elem_of_remove_dups. simpl.
      split; [intros [H|H]; [inversion H|exact H] | auto].
Qed.

(** X7.  [firstImageArrivalTime] after [updateImage]: it becomes the clock
    reading exactly when the event inserts a new id with status [succeeded] and
    the value held by the callback's closure is unset; in every other case it
    is what the cell held.  The test reads the closure's value, not the cell. *)
Theorem arrival_time_after_update c now ev st :
  firstImageArrivalTime (updateImage c now ev st) =
  if decide (prediction_id ev ∈ ids (images st)) then firstImageArrivalTime st
  else if bool_decide (status ev = succeeded) && not_set c then Some now
       else firstImageArrivalTime st.
Proof.
  destruct (decide (prediction_id ev ∈ ids (images st))) as [Hin|Hout].
  - apply updateImage_present_keeps_arrival, Hin.
  - apply findIndex_absent in Hout. unfold updateImage. rewrite Hout. reflexivity.
Qed.

(** X8.  Once the arrival time holds a non-zero clock reading, no sequence of
    events applied through the current callback changes it. *)
Theorem arrival_time_latched (evs : list (Z * GeneratedImage)) st t :
  firstImageArrivalTime st = Some t -> t <> 0 ->
  firstImageArrivalTime (applyAll evs st) = Some t.
Proof.
  revert st. induction evs as [|e evs IH]; intros st Ht Hne; simpl; [exact Ht|].
  apply IH; [|exact Hne]. apply apply_keeps_latched; assumption.
Qed.

Lemma arrival_time_latched_witness :
  firstImageArrivalTime
    (applyAll [(20, mk "b" succeeded ["u2"]); (30, mk "a" failed [])]
       (apply (10, mk "a" succeeded ["u1"]) initial))
  = Some 10.
Proof.
  apply (arrival_time_latched _ (apply (10, mk "a" succeeded ["u1"]) initial) 10);
    [reflexivity | discriminate].
Defined.

(** X9.  After [clearImages] every count is zero and the arrival time is unset,
    and events applied afterwards build a collection that holds exactly their
    own ids: nothing of the previous job is left. *)
Theorem clearImages_forgets (evs : list (Z * GeneratedImage)) st :
  totalImages (clearImages st) = 0%nat
  /\ succeededCount (clearImages st) = 0%nat
  /\ processingCount (clearImages st) = 0%nat
  /\ failedCount (clearImages st) = 0%nat
  /\ firstImageArrivalTime (clearImages st) = None
  /\ (forall id, id ∈ ids (images (applyAll evs (clearImages st))) <-> id ∈ ids (evs.*2)).
Proof.
  do 5 (split; [reflexivity|]). intros id. rewrite applyAll_ids_elem. simpl.
  split; [intros [H|H]; [inversion H|exact H] | auto].
Qed.

End ImagesMore.

(** * More on the connection hook *)

Section SocketMore.
Import Images Socket.

Implicit Types (s : Hook) (B : Browser).

(** X10.  The reconnect delay is between 1 s and 30 s, never shrinks as the
    attempt counter grows, doubles from 1000 ms below five attempts and is the
    30000 ms cap from five attempts on. *)
Theorem reconnectDelay_bounds (k k' : nat) :
  1000 <= reconnectDelay k <= 30000
  /\ ((k <= k')%nat -> reconnectDelay k <= reconnectDelay k')
  /\ ((k < 5)%nat -> reconnectDelay k = 1000 * 2 ^ Z.of_nat k)
  /\ ((5 <= k)%nat -> reconnectDelay k = 30000).
Proof.
  unfold reconnectDelay.
  assert (forall n : nat, 1 <= 2 ^ Z.of_nat n) as Hpos.
  { intros n. change 1 with (2 ^ 0). apply Z.pow_le_mono_r; lia. }
  split; [|split; [|split]].
  - pose proof (Hpos k). lia.
  - intros Hk. apply Z.min_le_compat_r.
    assert (2 ^ Z.of_nat k <= 2 ^ Z.of_nat k') by (apply Z.pow_le_mono_r; lia). lia.
  - intros Hk. apply (reconnectDelay_below_ceiling k Hk).
  - intros Hk. apply Z.min_r.
    assert (2 ^ 5 <= 2 ^ Z.of_nat k) by (apply Z.pow_le_mono_r; lia).
    change (2 ^ 5) with 32 in *. lia.
Qed.

Lemma reconnectDelay_bounds_witness :
  reconnectDelay 2 <= reconnectDelay 7 /\ reconnectDelay 7 = 30000.
Proof.
  split.
  - apply (proj1 (proj2 (reconnectDelay_bounds 2 7))). lia.
  - apply (proj2 (proj2 (proj2 (reconnectDelay_bounds 7 0)))). lia.
Defined.



Lemma trace_WebSocket_close h args s : trace (WebSocket_close h args s) = trace s.
Proof.
  unfold WebSocket_close. destruct (sockets s !! h) as [w|]; [|reflexivity].
  destruct (readyState w); reflexivity.
Qed.

Lemma length_sockets_WebSocket_close h args s :
  length (sockets (WebSocket_close h args s)) = length (sockets s).
Proof.
  unfold WebSocket_close. destruct (sockets s !! h) as [w|]; [|reflexivity].
  destruct (readyState w); simpl; rewrite ?length_insert; reflexivity.
Qed.

(** X12.  [connect] is a no-op exactly when the job id is empty or the hook is
    disabled; in every other case it at least writes to the console. *)
Theorem connect_noop_iff B enabled jobId s :
  connect B enabled jobId s = s <-> jobId = "" \/ enabled = false.
Proof.
  unfold connect. split.
  - destruct (bool_decide (jobId = "")) eqn:Hj; [apply bool_decide_eq_true in Hj; auto|].
    destruct enabled; [|auto]. simpl.
    intros Heq. exfalso.
    assert (length (trace s) < length (trace s))%nat as Habs; [|lia].
    rewrite <- Heq at 2.
    destruct (WebSocket_constructs B _); simpl;
      destruct (wsRef s); simpl; rewrite ?trace_WebSocket_close, ?length_app; simpl; lia.
  - intros [-> | ->]; [reflexivity|]. rewrite orb_true_r. reflexivity.
Qed.

Lemma connect_noop_iff_witness :
  connect test_browser true "" initial = initial
  /\ connect test_browser false "job" initial = initial.
Proof.
  split.
  - apply (proj2 (connect_noop_iff test_browser true "" initial)). left. reflexivity.
  - apply (proj2 (connect_noop_iff test_browser false "job" initial)). right. reflexivity.
Defined.

Lemma connect_failure_fields B jobId s :
  jobId <> "" ->
  WebSocket_constructs B ("ws://localhost:8000/api/v1/generate/" +:+ jobId) = false ->
  let s' := connect B true jobId s in
  Socket.error s' = Some "Failed to connect"
  /\ length (sockets s') = length (sockets s)
  /\ wsRef s' = wsRef s
  /\ isConnected s' = isConnected s
  /\ timeouts s' = timeouts s
  /\ reconnectAttemptsRef s' = reconnectAttemptsRef s
  /\ (forall h w, wsRef s = Some h -> sockets s' !! h = Some w -> is_live w = false).
Proof.
  intros Hj Hc. simpl. unfold connect.
  rewrite (bool_decide_eq_false_2 _ Hj), Hc. simpl.
  destruct (wsRef s) as [h|] eqn:Hh; simpl.
  - unfold WebSocket_close.
    destruct (sockets s !! h) as [w|] eqn:Hw; simpl.
    + destruct (readyState w) eqn:Hr; simpl; rewrite ?length_insert;
        (do 6 (split; [auto|]); intros h' w' [= <-]);
        rewrite ?list_lookup_insert_eq by (eapply lookup_lt_Some; eauto);
        rewrite ?Hw; intros [= <-]; unfold is_live; simpl; rewrite ?Hr; reflexivity.
    + do 6 (split; [auto|]). intros h' w' [= <-]. rewrite Hw. discriminate.
  - do 6 (split; [auto|]). intros h' w'. discriminate.
Qed.

(** X13.  When [new WebSocket] throws, [connect] records "Failed to connect"
    and creates nothing, but the socket that [wsRef] named has already been
    told to close and [wsRef] still names it; the connected flag, the timers
    and the attempt counter are as before. *)
Theorem connect_when_constructor_throws B jobId s :
  jobId <> "" ->
  WebSocket_constructs B ("ws://localhost:8000/api/v1/generate/" +:+ jobId) = false ->
  let s' := connect B true jobId s in
  Socket.error s' = Some "Failed to connect"
  /\ length (sockets s') = length (sockets s)
  /\ wsRef s' = wsRef s
  /\ isConnected s' = isConnected s
  /\ timeouts s' = timeouts s
  /\ reconnectAttemptsRef s' = reconnectAttemptsRef s
  /\ (forall h w, wsRef s = Some h -> sockets s' !! h = Some w -> is_live w = false).
Proof. apply connect_failure_fields. Qed.

Lemma connect_when_constructor_throws_witness :
  let B := {| JSON_parse := fun _ => None; WebSocket_constructs := fun _ => false |} in
  Socket.error (connect B true "job" (connect test_browser true "old" initial))
  = Some "Failed to connect"
  /\ wsRef (connect B true "job" (connect test_browser true "old" initial)) = Some 0%nat.
Proof.
  pose proof (connect_when_constructor_throws
                {| JSON_parse := fun _ => None; WebSocket_constructs := fun _ => false |}
                "job" (connect test_browser true "old" initial)
                ltac:(discriminate) eq_refl) as (He & _ & Hw & _).
  split; [exact He | exact Hw].
Defined.

Lemma connect_success_fields B jobId s :
  jobId <> "" ->
  WebSocket_constructs B ("ws://localhost:8000/api/v1/generate/" +:+ jobId) = true ->
  let s' := connect B true jobId s in
  length (sockets s') = S (length (sockets s))
  /\ wsRef s' = Some (length (sockets s))
  /\ sockets s' !! length (sockets s)
     = Some {| url := "ws://localhost:8000/api/v1/generate/" +:+ jobId;
               readyState := CONNECTING; close_args := None;
               ws_jobId := jobId; ws_enabled := true |}
  /\ timeouts s' = timeouts s
  /\ reconnectTimeoutRef s' = reconnectTimeoutRef s
  /\ reconnectAttemptsRef s' = reconnectAttemptsRef s
  /\ isConnected s' = isConnected s
  /\ Socket.error s' = Socket.error s.
Proof.
  intros Hj Hc. simpl. unfold connect.
  rewrite (bool_decide_eq_false_2 _ Hj), Hc. simpl.
  destruct (wsRef s) as [h|]; simpl.
  - pose proof (length_sockets_WebSocket_close h None s) as Hlen.
    rewrite length_app, Hlen. simpl.
    split; [lia|]. split; [reflexivity|]. split.
    + rewrite lookup_app_r by lia. rewrite Hlen, Nat.sub_diag. reflexivity.
    + unfold WebSocket_close. destruct (sockets s !! h) as [w|]; simpl;
        [destruct (readyState w)|]; repeat split.
  - rewrite length_app. simpl. split; [lia|]. split; [reflexivity|]. split.
    + rewrite lookup_app_r by lia. rewrite Nat.sub_diag. reflexivity.
    + repeat split.
Qed.

(** X14.  When the constructor succeeds, [connect] appends exactly one socket,
    connecting, with the job's URL, and points [wsRef] to it.  It does not
    cancel a pending reconnect timer, reset the attempt counter, or touch the
    connected flag and the error. *)
Theorem connect_opens_one_socket B jobId s :
  jobId <> "" ->
  WebSocket_constructs B ("ws://localhost:8000/api/v1/generate/" +:+ jobId) = true ->
  let s' := connect B true jobId s in
  length (sockets s') = S (length (sockets s))
  /\ wsRef s' = Some (length (sockets s))
  /\ sockets s' !! length (sockets s)
     = Some {| url := "ws://localhost:8000/api/v1/generate/" +:+ jobId;
               readyState := CONNECTING; close_args := None;
               ws_jobId := jobId; ws_enabled := true |}
  /\ timeouts s' = timeouts s
  /\ reconnectTimeoutRef s' = reconnectTimeoutRef s
  /\ reconnectAttemptsRef s' = reconnectAttemptsRef s
  /\ isConnected s' = isConnected s
  /\ Socket.error s' = Socket.error s.
Proof. apply connect_success_fields. Qed.

Lemma connect_opens_one_socket_witness :
  wsRef (connect test_browser true "job" initial) = Some 0%nat
  /\ timeouts (connect test_browser true "job" initial) = [].
Proof.
  pose proof (connect_opens_one_socket test_browser "job" initial
                ltac:(discriminate) eq_refl) as (_ & Hw & _ & Ht & _).
  split; [exact Hw | exact Ht].
Defined.

(** *** Invariants of the reachable states *)

Lemma wf_WebSocket_close h args s : well_formed s -> well_formed (WebSocket_close h args s).
Proof.
  intros (H1 & H2 & H3 & H4). unfold WebSocket_close.
  destruct (sockets s !! h) as [w|] eqn:Hw; [|repeat split; auto].
  assert (socket_ok w) as Hok by (eapply Forall_lookup_1; eauto).
  destruct (readyState w); try (repeat split; auto; fail);
    (split; [|split; [|split]]; simpl;
     [intros h' Hh'; rewrite length_insert; auto | auto
     | apply Forall_insert; auto | auto]).
Qed.

Lemma wf_clearTimeout id s : well_formed s -> well_formed (clearTimeout id s).
Proof.
  intros (H1 & H2 & H3 & H4). unfold clearTimeout.
  destruct (timeouts s !! id) as [t|] eqn:Ht; [|repeat split; auto].
  assert (timeout_ok t) as Hok by (eapply Forall_lookup_1; eauto).
  split; [|split; [|split]]; simpl; auto.
  - intros id' Hid'. rewrite length_insert. auto.
  - apply Forall_insert; auto.
Qed.

Lemma wf_connect B enabled jobId s : well_formed s -> well_formed (connect B enabled jobId s).
Proof.
  intros Hwf. unfold connect.
  destruct (bool_decide (jobId = "")) eqn:Hj; [exact Hwf|].
  apply bool_decide_eq_false in Hj.
  destruct enabled; [|exact Hwf]. simpl.
  set (s1 := match wsRef s with Some h => WebSocket_close h None s | None => s end).
  assert (well_formed s1) as (H1 & H2 & H3 & H4).
  { subst s1. destruct (wsRef s); [apply wf_WebSocket_close|]; exact Hwf. }
  destruct (WebSocket_constructs B _); simpl.
  - split; [|split; [|split]]; simpl; auto.
    + intros h [= <-]. rewrite length_app. simpl. lia.
    + apply Forall_app. split; [exact H3|]. constructor; [|constructor].
      repeat split; auto.
  - split; [|split; [|split]]; simpl; auto.
Qed.

Lemma wf_disconnect s : well_formed s -> well_formed (disconnect s).
Proof.
  intros Hwf. unfold disconnect.
  set (s1 := match reconnectTimeoutRef s with Some id => clearTimeout id s | None => s end).
  assert (well_formed s1) as Hwf1.
  { subst s1. destruct (reconnectTimeoutRef s); [apply wf_clearTimeout|]; exact Hwf. }
  destruct (wsRef s1) as [h|]; simpl.
  - destruct (wf_WebSocket_close h (Some (1000, "Manual disconnect")) s1 Hwf1)
      as (H1 & H2 & H3 & H4).
    split; [|split; [|split]]; simpl; auto. discriminate.
  - destruct Hwf1 as (H1 & H2 & H3 & H4).
    split; [|split; [|split]]; simpl; auto.
Qed.

Lemma wf_step B i s s' : step B i s = Some s' -> well_formed s -> well_formed s'.
Proof.
  destruct i as [enabled jobId| |h|h frame thr|h|h code reason|id]; simpl.
  - intros [= <-]. apply wf_connect.
  - intros [= <-]. apply wf_disconnect.
  - destruct (sockets s !! h) as [w|] eqn:Hw; simpl; [|discriminate].
    destruct (bool_decide _); [|discriminate]. intros [= <-] (H1 & H2 & H3 & H4).
    assert (socket_ok w) as Hok by (eapply Forall_lookup_1; eauto).
    split; [|split; [|split]]; simpl; auto.
    + intros h' Hh'. rewrite length_insert. auto.
    + apply Forall_insert; auto.
  - destruct (sockets s !! h) as [w|]; simpl; [|discriminate].
    destruct (bool_decide _); [|discriminate]. intros [= <-] (H1 & H2 & H3 & H4).
    unfold ws_onmessage. destruct (JSON_parse B frame); [destruct thr|]; repeat split; auto.
  - destruct (sockets s !! h) as [w|]; simpl; [|discriminate].
    destruct (bool_decide _); [discriminate|]. intros [= <-] (H1 & H2 & H3 & H4).
    repeat split; auto.
  - destruct (sockets s !! h) as [w|] eqn:Hw; simpl; [|discriminate].
    destruct (bool_decide _); [discriminate|]. intros [= <-] (H1 & H2 & H3 & H4).
    assert (socket_ok w) as Hok by (eapply Forall_lookup_1; eauto).
    assert (Forall socket_ok (<[h := set_readyState CLOSED w]> (sockets s))) as H3'
      by (apply Forall_insert; auto).
    unfold ws_onclose. simpl.
    destruct (bool_decide (_ < _)%nat) eqn:Hk;
      [apply bool_decide_eq_true in Hk | rewrite andb_false_r].
    + destruct (_ && _ && _) eqn:Hg.
      * apply andb_prop in Hg as [_ He].
        split; [|split; [|split]]; simpl; auto; try discriminate.
        -- intros id [= <-]. rewrite length_app. simpl. lia.
        -- apply Forall_app. split; [exact H4|]. constructor; [|constructor].
           destruct Hok as (_ & Hjob & _). split; [exact He|]. split; [exact Hjob|].
           simpl. destruct (reconnectDelay_below_ceiling _ Hk) as [_ Hl].
           eapply list_elem_of_lookup_2. exact Hl.
      * split; [|split; [|split]]; simpl; auto; discriminate.
    + split; [|split; [|split]]; simpl; auto; discriminate.
  - destruct (timeouts s !! id) as [t|] eqn:Ht; simpl; [|discriminate].
    destruct (pending t); [|discriminate]. intros [= <-] Hwf.
    unfold timeout_callback. apply wf_connect.
    destruct (wf_clearTimeout id s Hwf) as (H1 & H2 & H3 & H4).
    repeat split; auto.
Qed.

Lemma wf_run B inputs s s' : run B inputs s = Some s' -> well_formed s -> well_formed s'.
Proof.
  revert s. induction inputs as [|i inputs IH]; intros s; simpl.
  - intros [= <-]. auto.
  - destruct (step B i s) as [s1|] eqn:Hs; simpl; [|discriminate].
    intros Hrun Hwf. apply (IH s1 Hrun). eapply wf_step; eauto.
Qed.

(** X15.  In every state the hook can reach, [wsRef] and [reconnectTimeoutRef]
    name a socket and a timer that exist, every socket carries the URL of its
    job, and every socket and timer was created with [enabled] true and a
    non-empty job id: the [enabled] test in [ws.onclose] never stops a
    reconnect, and every timer waits one of the five delays. *)
Theorem reachable_states_are_well_formed B inputs s :
  run B inputs initial = Some s -> well_formed s.
Proof.
  intros Hrun. apply (wf_run _ _ _ _ Hrun).
  repeat split; simpl; try discriminate; constructor.
Qed.

Lemma reachable_states_are_well_formed_witness :
  well_formed (connect test_browser true "job" initial).
Proof.
  apply (reachable_states_are_well_formed test_browser [do_connect true "job"]).
  reflexivity.
Defined.

Lemma advances_refl w : advances w w.
Proof. repeat split; auto. Qed.

Lemma advances_trans w1 w2 w3 : advances w1 w2 -> advances w2 w3 -> advances w1 w3.
Proof.
  intros (A1 & A2 & A3 & A4) (B1 & B2 & B3 & B4).
  repeat split; try congruence. lia.
Qed.

Lemma advances_WebSocket_close h0 args s h w :
  sockets s !! h = Some w ->
  exists w', sockets (WebSocket_close h0 args s) !! h = Some w' /\ advances w w'.
Proof.
  intros Hw. unfold WebSocket_close.
  destruct (sockets s !! h0) as [w0|] eqn:Hw0; [|exists w; auto using advances_refl].
  destruct (readyState w0) eqn:Hr; try (exists w; auto using advances_refl; fail); simpl;
    (destruct (decide (h = h0)) as [->|Hne];
     [rewrite list_lookup_insert_eq by (eapply lookup_lt_Some; eauto);
      eexists; split; [reflexivity|];
      assert (w = w0) as -> by congruence;
      repeat split; simpl; rewrite Hr; simpl; lia
     |rewrite list_lookup_insert_ne by auto; exists w; auto using advances_refl]).
Qed.

Lemma advances_connect B enabled jobId s h w :
  sockets s !! h = Some w ->
  exists w', sockets (connect B enabled jobId s) !! h = Some w' /\ advances w w'.
Proof.
  intros Hw. unfold connect.
  destruct (_ || _); [exists w; auto using advances_refl|].
  set (s1 := match wsRef s with Some h => WebSocket_close h None s | None => s end).
  assert (exists w', sockets s1 !! h = Some w' /\ advances w w') as (w' & Hw' & Ha).
  { subst s1. destruct (wsRef s); [apply advances_WebSocket_close; exact Hw|].
    exists w; auto using advances_refl. }
  exists w'. split; [|exact Ha].
  destruct (WebSocket_constructs B _); simpl; [|exact Hw'].
  apply lookup_app_l_Some. exact Hw'.
Qed.

Lemma advances_step B i s s' h w :
  step B i s = Some s' -> sockets s !! h = Some w ->
  exists w', sockets s' !! h = Some w' /\ advances w w'.
Proof.
  destruct i as [enabled jobId| |h0|h0 frame thr|h0|h0 code reason|id]; simpl.
  - intros [= <-]. apply advances_connect.
  - intros [= <-] Hw. unfold disconnect.
    set (s1 := match reconnectTimeoutRef s with Some id => clearTimeout id s | None => s end).
    assert (sockets s1 = sockets s) as Hs1.
    { subst s1. destruct (reconnectTimeoutRef s) as [id|]; [|reflexivity].
      unfold clearTimeout. destruct (timeouts s !! id); reflexivity. }
    destruct (wsRef s1) as [h1|]; simpl.
    + apply advances_WebSocket_close. rewrite Hs1. exact Hw.
    + rewrite Hs1. exists w; auto using advances_refl.
  - destruct (sockets s !! h0) as [w0|] eqn:Hw0; simpl; [|discriminate].
    destruct (bool_decide _) eqn:Hc; [|discriminate]. apply bool_decide_eq_true in Hc.
    intros [= <-] Hw. simpl.
    destruct (decide (h = h0)) as [->|Hne].
    + rewrite list_lookup_insert_eq by (eapply lookup_lt_Some; eauto).
      eexists; split; [reflexivity|]. assert (w = w0) as -> by congruence.
      repeat split; simpl. rewrite Hc. simpl. lia.
    + rewrite list_lookup_insert_ne by auto. exists w; auto using advances_refl.
  - destruct (sockets s !! h0) as [w0|]; simpl; [|discriminate].
    destruct (bool_decide _); [|discriminate]. intros [= <-] Hw.
    unfold ws_onmessage. destruct (JSON_parse B frame); [destruct thr|];
      exists w; auto using advances_refl.
  - destruct (sockets s !! h0) as [w0|]; simpl; [|discriminate].
    destruct (bool_decide _); [discriminate|]. intros [= <-] Hw.
    exists w; auto using advances_refl.
  - destruct (sockets s !! h0) as [w0|] eqn:Hw0; simpl; [|discriminate].
    destruct (bool_decide _); [discriminate|]. intros [= <-] Hw.
    assert (exists w', <[h0 := set_readyState CLOSED w0]> (sockets s) !! h = Some w'
                       /\ advances w w') as (w' & Hw' & Ha).
    { destruct (decide (h = h0)) as [->|Hne].
      - rewrite list_lookup_insert_eq by (eapply lookup_lt_Some; eauto).
        eexists; split; [reflexivity|]. assert (w = w0) as -> by congruence.
        repeat split; simpl. destruct (readyState w0); simpl; lia.
      - rewrite list_lookup_insert_ne by auto. exists w; auto using advances_refl. }
    exists w'. split; [|exact Ha].
    unfold ws_onclose. simpl. destruct (_ && _ && _); simpl; exact Hw'.
  - destruct (timeouts s !! id) as [t|] eqn:Ht; simpl; [|discriminate].
    destruct (pending t); [|discriminate]. intros [= <-] Hw.
    unfold timeout_callback. apply advances_connect.
    unfold clearTimeout. rewrite Ht. simpl. exact Hw.
Qed.

(** X16.  A socket, once created, is never removed or replaced, and its state
    only moves forward (connecting, open, closing, closed): in particular a
    closed socket stays closed and no socket is ever re-opened. *)
Theorem sockets_only_advance B inputs s s' h w :
  run B inputs s = Some s' -> sockets s !! h = Some w ->
  exists w', sockets s' !! h = Some w' /\ advances w w'
             /\ (readyState w = CLOSED -> readyState w' = CLOSED).
Proof.
  revert s w. induction inputs as [|i inputs IH]; intros s w; simpl.
  - intros [= <-] Hw. exists w. split; [exact Hw|]. split; [apply advances_refl|auto].
  - destruct (step B i s) as [s1|] eqn:Hs; simpl; [|discriminate].
    intros Hrun Hw.
    destruct (advances_step _ _ _ _ _ _ Hs Hw) as (w1 & Hw1 & Ha1).
    destruct (IH s1 w1 Hrun Hw1) as (w' & Hw' & Ha & _).
    exists w'. split; [exact Hw'|].
    assert (advances w w') as Haw by (eapply advances_trans; eauto).
    split; [exact Haw|].
    intros Hc. destruct Haw as (_ & _ & _ & Hr). rewrite Hc in Hr. simpl in Hr.
    destruct (readyState w'); simpl in Hr; try lia. reflexivity.
Qed.

Lemma sockets_only_advance_witness :
  exists w', sockets (disconnect (connect test_browser true "job" initial)) !! 0%nat = Some w'
             /\ url w' = "ws://localhost:8000/api/v1/generate/job".
Proof.
  destruct (sockets_only_advance test_browser [do_disconnect]
              (connect test_browser true "job" initial)
              (disconnect (connect test_browser true "job" initial)) 0%nat
              {| url := "ws://localhost:8000/api/v1/generate/job";
                 readyState := CONNECTING; close_args := None;
                 ws_jobId := "job"; ws_enabled := true |}
              eq_refl eq_refl) as (w' & Hw' & (Hu & _) & _).
  exists w'. split; [exact Hw' | exact Hu].
Defined.

Lemma timeouts_disconnect s :
  timeouts (disconnect s) =
  match reconnectTimeoutRef s with
  | Some id => timeouts (clearTimeout id s)
  | None => timeouts s
  end.
Proof.
  unfold disconnect.
  set (s1 := match reconnectTimeoutRef s with Some id => clearTimeout id s | None => s end).
  assert (timeouts s1 = match reconnectTimeoutRef s with
                        | Some id => timeouts (clearTimeout id s)
                        | None => timeouts s
                        end) as <- by (subst s1; destruct (reconnectTimeoutRef s); reflexivity).
  destruct (wsRef s1); simpl; [apply timeouts_WebSocket_close | reflexivity].
Qed.

Lemma disconnect_leaves_none_pending s :
  (forall id t, timeouts s !! id = Some t -> pending t = true ->
                reconnectTimeoutRef s = Some id) ->
  Forall (fun t => pending t = false) (timeouts (disconnect s)).
Proof.
  intros Hreg. rewrite timeouts_disconnect. apply Forall_lookup_2. intros j t.
  destruct (reconnectTimeoutRef s) as [id|] eqn:Hid.
  - unfold clearTimeout. destruct (timeouts s !! id) as [t0|] eqn:Ht0; simpl.
    + destruct (decide (j = id)) as [->|Hne].
      * rewrite list_lookup_insert_eq by (eapply lookup_lt_Some; eauto).
        intros [= <-]. reflexivity.
      * rewrite list_lookup_insert_ne by auto. intros Ht.
        destruct (pending t) eqn:Hp; [|reflexivity].
        specialize (Hreg j t Ht Hp). congruence.
    + intros Ht. destruct (pending t) eqn:Hp; [|reflexivity].
      specialize (Hreg j t Ht Hp). congruence.
  - intros Ht. destruct (pending t) eqn:Hp; [|reflexivity].
    specialize (Hreg j t Ht Hp). discriminate.
Qed.

Lemma clearTimeout_keeps_cancelled id0 s id t :
  timeouts s !! id = Some t -> pending t = false ->
  exists t', timeouts (clearTimeout id0 s) !! id = Some t' /\ pending t' = false.
Proof.
  intros Ht Hp. unfold clearTimeout.
  destruct (timeouts s !! id0) as [t0|] eqn:Ht0; simpl; [|eauto].
  destruct (decide (id = id0)) as [->|Hne].
  - rewrite list_lookup_insert_eq by (eapply lookup_lt_Some; eauto). eauto.
  - rewrite list_lookup_insert_ne by auto. eauto.
Qed.

(** A timer that is not pending never becomes pending again. *)
Lemma cancelled_stays_cancelled_step B i s s' id t :
  step B i s = Some s' -> timeouts s !! id = Some t -> pending t = false ->
  exists t', timeouts s' !! id = Some t' /\ pending t' = false.
Proof.
  destruct i as [enabled jobId| |h|h frame thr|h|h code reason|id0]; simpl.
  - intros [= <-] Ht Hp. rewrite timeouts_connect. eauto.
  - intros [= <-] Ht Hp. rewrite timeouts_disconnect.
    destruct (reconnectTimeoutRef s); [|eauto].
    eapply clearTimeout_keeps_cancelled; eauto.
  - destruct (sockets s !! h) as [w|]; simpl; [|discriminate].
    destruct (bool_decide _); [|discriminate]. intros [= <-] Ht Hp. simpl. eauto.
  - destruct (sockets s !! h) as [w|]; simpl; [|discriminate].
    destruct (bool_decide _); [|discriminate]. intros [= <-] Ht Hp.
    unfold ws_onmessage. destruct (JSON_parse B frame); [destruct thr|]; simpl; eauto.
  - destruct (sockets s !! h) as [w|]; simpl; [|discriminate].
    destruct (bool_decide _); [discriminate|]. intros [= <-] Ht Hp. simpl. eauto.
  - destruct (sockets s !! h) as [w|]; simpl; [|discriminate].
    destruct (bool_decide _); [discriminate|]. intros [= <-] Ht Hp.
    unfold ws_onclose. simpl. destruct (_ && _ && _); simpl; [|eauto].
    exists t. split; [|exact Hp]. apply lookup_app_l_Some. exact Ht.
  - destruct (timeouts s !! id0) as [t0|] eqn:Ht0; simpl; [|discriminate].
    destruct (pending t0); [|discriminate]. intros [= <-] Ht Hp.
    unfold timeout_callback. rewrite timeouts_connect. simpl.
    eapply clearTimeout_keeps_cancelled; eauto.
Qed.

Lemma cancelled_stays_cancelled B inputs s s' id t :
  run B inputs s = Some s' -> timeouts s !! id = Some t -> pending t = false ->
  exists t', timeouts s' !! id = Some t' /\ pending t' = false.
Proof.
  revert s t. induction inputs as [|i inputs IH]; intros s t; simpl.
  - intros [= <-]. eauto.
  - destruct (step B i s) as [s1|] eqn:Hs; simpl; [|discriminate].
    intros Hrun Ht Hp.
    destruct (cancelled_stays_cancelled_step _ _ _ _ _ _ Hs Ht Hp) as (t1 & Ht1 & Hp1).
    eapply IH; eauto.
Qed.

(** [disconnect] during a connection attempt does not rule out a later
    reconnect: the aborted socket closes with code 1006, and its [onclose]
    schedules a new timer, which fires and connects again. *)
Lemma disconnect_during_connect_can_reconnect :
  (fun s => (pending <$> timeouts s, ws_jobId <$> live s))
    <$> run test_browser
          [do_connect true "A"; do_disconnect; on_close 0 1006 ""; on_timeout 0] initial
  = Some ([false], ["A"]).
Proof. reflexivity. Qed.

(** X17.  When the only reconnect timer that is still pending is the one whose
    id is in [reconnectTimeoutRef], [disconnect] cancels it: right after the
    call no timer is pending and no timer event can be delivered, and in every
    later run none of the timers that existed at the call is pending again or
    fires.  This is about the timers created before the call only: a socket
    that closes uncleanly afterwards still schedules a new one
    ([disconnect_during_connect_can_reconnect]). *)
Theorem disconnect_cancels_registered_timer B s :
  (forall id t, timeouts s !! id = Some t -> pending t = true ->
                reconnectTimeoutRef s = Some id) ->
  scheduled (disconnect s) = []
  /\ (forall id, step B (on_timeout id) (disconnect s) = None)
  /\ (forall inputs s' id,
        run B inputs (disconnect s) = Some s' -> (id < length (timeouts s))%nat ->
        (exists t, timeouts s' !! id = Some t /\ pending t = false)
        /\ step B (on_timeout id) s' = None).
Proof.
  intros Hreg. pose proof (disconnect_leaves_none_pending s Hreg) as Hall.
  split; [|split].
  - unfold scheduled. induction Hall as [|t l Ht Hl IH]; [reflexivity|].
    rewrite filter_cons, decide_False by congruence. exact IH.
  - intros id. unfold step.
    destruct (timeouts (disconnect s) !! id) as [t|] eqn:Ht; [|reflexivity].
    cbn [mbind option_bind]. rewrite (Forall_lookup_1 _ _ _ _ Hall Ht). reflexivity.
  - intros inputs s' id Hrun Hid.
    assert (length (timeouts (disconnect s)) = length (timeouts s)) as Hlen.
    { rewrite timeouts_disconnect. destruct (reconnectTimeoutRef s); [|reflexivity].
      unfold clearTimeout. destruct (timeouts s !! n); simpl;
        rewrite ?length_insert; reflexivity. }
    destruct (lookup_lt_is_Some_2 (timeouts (disconnect s)) id) as [t0 Ht0]; [lia|].
    pose proof (Forall_lookup_1 _ _ _ _ Hall Ht0) as Hp0.
    destruct (cancelled_stays_cancelled _ _ _ _ _ _ Hrun Ht0 Hp0) as (t & Ht & Hp).
    split; [eauto|].
    unfold step. rewrite Ht. cbn [mbind option_bind]. rewrite Hp. reflexivity.
Qed.

Lemma disconnect_cancels_registered_timer_witness :
  scheduled (ws_onclose true "job" 1006 "" initial)
  = [{| delay := 1000; pending := true; to_jobId := "job"; to_enabled := true |}]
  /\ scheduled (disconnect (ws_onclose true "job" 1006 "" initial)) = [].
Proof.
  split; [reflexivity|].
  apply (disconnect_cancels_registered_timer test_browser
           (ws_onclose true "job" 1006 "" initial)).
  intros [|id] t Ht Hp; [reflexivity|]. destruct id; discriminate Ht.
Defined.

(** X18.  [disconnect] twice is [disconnect] once, and after it the hook holds
    no socket, the connected flag is off, the error is cleared and
    [sendMessage] only warns. *)
Theorem disconnect_is_idempotent {M : Type} (stringify : M -> option string) (m : M) s :
  disconnect (disconnect s) = disconnect s
  /\ wsRef (disconnect s) = None
  /\ isConnected (disconnect s) = false
  /\ Socket.error (disconnect s) = None
  /\ sendMessage stringify m (disconnect s) = warned.
Proof.
  destruct (disconnect_effects s) as (Hw & Hc & He & _).
  split; [apply disconnect_idempotent|]. do 3 (split; [assumption|]).
  unfold sendMessage. rewrite Hw. reflexivity.
Qed.

(** X19.  [sendMessage] hands a message to a socket only when [wsRef] names a
    socket that is open.  Right after an effective [connect], before the open
    event, it only warns, whether the constructor threw or not. *)
Theorem sendMessage_needs_open_socket {M : Type} (stringify : M -> option string)
    (m : M) s :
  (forall h text, sendMessage stringify m s = sent h text ->
     wsRef s = Some h /\ readyState <$> sockets s !! h = Some OPEN
     /\ stringify m = Some text)
  /\ (forall B jobId, jobId <> "" ->
        sendMessage stringify m (connect B true jobId s) = warned).
Proof.
  split.
  - intros h text. unfold sendMessage.
    destruct (wsRef s) as [h'|]; [|discriminate].
    destruct (sockets s !! h') as [w|] eqn:Hw; [|discriminate].
    destruct (bool_decide (readyState w = OPEN)) eqn:Ho; [|discriminate].
    apply bool_decide_eq_true in Ho.
    destruct (stringify m); [|discriminate]. intros [= <- <-].
    rewrite Hw. simpl. rewrite Ho. auto.
  - intros B jobId Hj.
    destruct (WebSocket_constructs B ("ws://localhost:8000/api/v1/generate/" +:+ jobId))
      eqn:Hc.
    + destruct (connect_success_fields B jobId s Hj Hc) as (_ & Hw & Hs & _).
      unfold sendMessage. rewrite Hw, Hs. reflexivity.
    + destruct (connect_failure_fields B jobId s Hj Hc)
        as (_ & _ & Hw & _ & _ & _ & Hlive).
      unfold sendMessage. rewrite Hw.
      destruct (wsRef s) as [h|]; [|reflexivity].
      destruct (sockets (connect B true jobId s) !! h) as [w|] eqn:Hsw; [|reflexivity].
      specialize (Hlive h w eq_refl Hsw). unfold is_live in Hlive.
      destruct (readyState w); try discriminate; reflexivity.
Qed.

Lemma sendMessage_needs_open_socket_witness :
  sendMessage (fun m : string => Some m) "ping" (connect test_browser true "job" initial)
  = warned.
Proof.
  apply (proj2 (sendMessage_needs_open_socket (fun m : string => Some m) "ping" initial)).
  discriminate.
Defined.

Lemma length_timeouts_clearTimeout id s :
  length (timeouts (clearTimeout id s)) = length (timeouts s).
Proof.
  unfold clearTimeout. destruct (timeouts s !! id); simpl; rewrite ?length_insert; reflexivity.
Qed.

Lemma length_sockets_connect B enabled jobId s :
  length (sockets (connect B enabled jobId s)) = length (sockets s)
  \/ length (sockets (connect B enabled jobId s)) = S (length (sockets s)).
Proof.
  unfold connect. destruct (_ || _); [auto|].
  destruct (WebSocket_constructs B _); simpl; [right|left];
    destruct (wsRef s); simpl;
    rewrite ?length_app, ?length_sockets_WebSocket_close; simpl; lia.
Qed.

(** X20.  Sockets are created only by [connect], called by the component or by
    a reconnect timer, one at a time; timers are created only by the close of
    a socket with a code other than 1000, one at a time.  No other call or
    event adds or removes either. *)
Theorem sockets_and_timers_creation B i s s' :
  step B i s = Some s' ->
  (length (sockets s') = length (sockets s)
   \/ (length (sockets s') = S (length (sockets s))
       /\ ((exists enabled jobId, i = do_connect enabled jobId)
           \/ exists id, i = on_timeout id)))
  /\ (length (timeouts s') = length (timeouts s)
      \/ (length (timeouts s') = S (length (timeouts s))
          /\ exists h code reason, i = on_close h code reason /\ code <> 1000)).
Proof.
  destruct i as [enabled jobId| |h|h frame thr|h|h code reason|id]; simpl.
  - intros [= <-]. split.
    + destruct (length_sockets_connect B enabled jobId s) as [H|H]; [auto|].
      right. split; [exact H|]. left. eauto.
    + left. rewrite timeouts_connect. reflexivity.
  - intros [= <-]. split; left.
    + unfold disconnect.
      set (s1 := match reconnectTimeoutRef s with
                 | Some id => clearTimeout id s | None => s end).
      assert (sockets s1 = sockets s) as Hs1.
      { subst s1. destruct (reconnectTimeoutRef s) as [id|]; [|reflexivity].
        unfold clearTimeout. destruct (timeouts s !! id); reflexivity. }
      destruct (wsRef s1); simpl; rewrite ?length_sockets_WebSocket_close, Hs1; reflexivity.
    + rewrite timeouts_disconnect. destruct (reconnectTimeoutRef s); [|reflexivity].
      apply length_timeouts_clearTimeout.
  - destruct (sockets s !! h) as [w|]; simpl; [|discriminate].
    destruct (bool_decide _); [|discriminate]. intros [= <-]. simpl.
    rewrite length_insert. auto.
  - destruct (sockets s !! h) as [w|]; simpl; [|discriminate].
    destruct (bool_decide _); [|discriminate]. intros [= <-].
    unfold ws_onmessage. destruct (JSON_parse B frame); [destruct thr|]; simpl; auto.
  - destruct (sockets s !! h) as [w|]; simpl; [|discriminate].
    destruct (bool_decide _); [discriminate|]. intros [= <-]. simpl. auto.
  - destruct (sockets s !! h) as [w|]; simpl; [|discriminate].
    destruct (bool_decide _); [discriminate|]. intros [= <-].
    unfold ws_onclose. simpl.
    destruct (bool_decide (code = 1000)) eqn:Hc; simpl.
    + rewrite length_insert. auto.
    + apply bool_decide_eq_false in Hc.
      destruct (_ && _); simpl; rewrite length_insert; [|auto].
      split; [auto|]. right. rewrite length_app. simpl.
      split; [lia|]. eauto.
  - destruct (timeouts s !! id) as [t|] eqn:Ht; simpl; [|discriminate].
    destruct (pending t); [|discriminate]. intros [= <-].
    unfold timeout_callback. split.
    + destruct (length_sockets_connect B (to_enabled t) (to_jobId t)
                  (set_reconnectAttemptsRef (S (reconnectAttemptsRef (clearTimeout id s)))
                     (clearTimeout id s))) as [H|H].
      * left. rewrite H. unfold clearTimeout. rewrite Ht. reflexivity.
      * right. split; [|right; eauto].
        rewrite H. unfold clearTimeout. rewrite Ht. reflexivity.
    + left. rewrite timeouts_connect. simpl. apply length_timeouts_clearTimeout.
Qed.

Lemma sockets_and_timers_creation_witness :
  length (timeouts (disconnect (connect test_browser true "job" initial)))
  = length (timeouts (connect test_browser true "job" initial))
  \/ (length (timeouts (disconnect (connect test_browser true "job" initial)))
      = S (length (timeouts (connect test_browser true "job" initial)))
      /\ exists h code reason, do_disconnect = on_close h code reason /\ code <> 1000).
Proof.
  apply (proj2 (sockets_and_timers_creation test_browser do_disconnect
                  (connect test_browser true "job" initial)
                  (disconnect (connect test_browser true "job" initial)) eq_refl)).
Defined.

End SocketMore.

(** * More on the console component *)

Section ConsoleMore.
Import Images Socket Console.

Implicit Types (a : App).

(** X21.  Right after a submission succeeds the auto-disconnect effect does
    nothing, whatever the previous job left behind: [onSuccess] has emptied the
    collection in the same batch of state writes that set the expected count,
    so no positive expected count is reached. *)
Theorem fresh_submission_is_not_disconnected B num_images job_id a :
  completionEffect (onSuccess B num_images job_id a) = onSuccess B num_images job_id a.
Proof.
  apply completionEffect_idle. unfold Console.succeededCount. simpl.
  unfold Images.succeededCount. simpl. lia.
Qed.

(** X22.  The effect leaves the state as it is exactly when the expected count
    is not positive or fewer records than expected have succeeded. *)
Theorem completion_effect_idle_iff a :
  completionEffect a = a
  <-> expectedImageCount a <= 0 \/ Console.succeededCount a < expectedImageCount a.
Proof.
  split; [|apply completionEffect_idle].
  unfold completionEffect.
  destruct (bool_decide (0 < expectedImageCount a)) eqn:H1;
    [apply bool_decide_eq_true in H1 | apply bool_decide_eq_false in H1; lia].
  destruct (bool_decide (expectedImageCount a <= Console.succeededCount a)) eqn:H2;
    [apply bool_decide_eq_true in H2 | apply bool_decide_eq_false in H2; lia].
  simpl. intros Heq.
  assert (expectedImageCount a = 0) as H0 by (rewrite <- Heq at 1; reflexivity). lia.
Qed.

Lemma completion_effect_idle_iff_witness :
  completionEffect
    {| hook := Socket.initial;
       gallery := {| images := [mk "a" succeeded ["u"]]; firstImageArrivalTime := None |};
       expectedImageCount := 5 |}
  = {| hook := Socket.initial;
       gallery := {| images := [mk "a" succeeded ["u"]]; firstImageArrivalTime := None |};
       expectedImageCount := 5 |}.
Proof.
  apply (proj2 (completion_effect_idle_iff _)). right. reflexivity.
Defined.

(** X23.  A run of messages changes the collection as [updateImage] on its
    [prediction_update] payloads alone would, in the same order and with the
    same closures and clock readings: [pong] and [error] messages never reach
    [updateImage].  No message changes the expected count, the sockets, the
    timers, the refs or the hook's two state cells. *)
Theorem receive_applies_updates_only (ms : list (option Z * Z * WebSocketMessage)) a :
  gallery (receive ms a) = updateAll (updates ms) (gallery a)
  /\ expectedImageCount (receive ms a) = expectedImageCount a
  /\ sockets (hook (receive ms a)) = sockets (hook a)
  /\ timeouts (hook (receive ms a)) = timeouts (hook a)
  /\ wsRef (hook (receive ms a)) = wsRef (hook a)
  /\ reconnectTimeoutRef (hook (receive ms a)) = reconnectTimeoutRef (hook a)
  /\ isConnected (hook (receive ms a)) = isConnected (hook a)
  /\ Socket.error (hook (receive ms a)) = Socket.error (hook a).
Proof.
  revert a. induction ms as [|[[c t] m] ms IH]; intros a; [repeat split|].
  simpl. destruct (IH (onMessage c t m a)) as (H1 & H2 & H3 & H4 & H5 & H6 & H7 & H8).
  unfold receive in *. simpl.
  rewrite H1, H2, H3, H4, H5, H6, H7, H8.
  unfold onMessage, updates. simpl.
  destruct (type m); simpl; repeat split.
Qed.

End ConsoleMore.

(** * The forms *)

Section FormsFacts.
Import Forms.

Implicit Types (s : JSString).

Lemma trimStart_nil s : trimStart s = [] <-> Forall (fun c => is_space c = true) s.
Proof.
  induction s as [|c s IH]; simpl; [split; auto|].
  destruct (is_space c) eqn:Hc.
  - rewrite IH. split; [intros H; constructor; auto|]. intros H. inversion H; auto.
  - split; [discriminate|]. intros H. inversion H; congruence.
Qed.

Lemma trimStart_head s c s' : trimStart s = c :: s' -> is_space c = false.
Proof.
  induction s as [|x s IH]; simpl; [discriminate|].
  destruct (is_space x) eqn:Hx; [exact IH|]. intros [= <- _]. exact Hx.
Qed.

Lemma trimStart_suffix s : exists p, s = p ++ trimStart s /\ Forall (fun c => is_space c = true) p.
Proof.
  induction s as [|c s (p & Hp & Hall)]; simpl; [exists []; auto|].
  destruct (is_space c) eqn:Hc.
  - exists (c :: p). simpl. rewrite <- Hp. auto.
  - exists []. auto.
Qed.

(** [trim] returns the empty string exactly on strings made of space
    characters only. *)
Lemma trim_nil s : trim s = [] <-> Forall (fun c => is_space c = true) s.
Proof.
  unfold trim, trimEnd. split.
  - intros H. apply (f_equal reverse) in H. rewrite reverse_involutive in H.
    simpl in H. change (reverse []) with (@nil N) in H.
    apply trimStart_nil in H. apply Forall_reverse in H.
    rewrite reverse_involutive in H.
    destruct (trimStart s) as [|c s'] eqn:Ht; [apply trimStart_nil; exact Ht|].
    apply trimStart_head in Ht. inversion H; congruence.
  - intros H. apply trimStart_nil in H. rewrite H. reflexivity.
Qed.

(** [trim] never makes a string longer. *)
Lemma trim_length s : (length (trim s) <= length s)%nat.
Proof.
  assert (forall x, length (trimStart x) <= length x)%nat as Hs.
  { intros x. induction x as [|c x IH]; simpl; [lia|]. destruct (is_space c); simpl; lia. }
  unfold trim, trimEnd. rewrite length_reverse.
  etransitivity; [apply Hs|]. rewrite length_reverse. apply Hs.
Qed.

(** X24.  [validateForm] of the generation form returns [true] exactly when
    the prompt has at least three code units after trimming and the batch size
    is between 5 and 20; it then reports no error.  A prompt of space
    characters only gets "Please enter a prompt", and every error it sets goes
    with a [false] result. *)
Theorem validateForm_accepts_iff (formData : GenerationRequest) :
  ((validateForm formData).2 = true
   <-> (3 <= length (trim (prompt formData)))%nat /\ 5 <= num_images formData <= 20)
  /\ ((validateForm formData).2 = true <-> (validateForm formData).1 = no_errors)
  /\ (Forall (fun c => is_space c = true) (prompt formData) ->
      e_prompt (validateForm formData).1 = Some "Please enter a prompt").
Proof.
  unfold validateForm. simpl.
  destruct (bool_decide (trim (prompt formData) = [])) eqn:H0;
    [apply bool_decide_eq_true in H0; rewrite H0
    |apply bool_decide_eq_false in H0;
     assert (~ Forall (fun c => is_space c = true) (prompt formData)) as Hns
       by (rewrite <- trim_nil; exact H0);
     destruct (bool_decide (length (trim (prompt formData)) < 3)%nat) eqn:H1;
     [apply bool_decide_eq_true in H1 | apply bool_decide_eq_false in H1]];
    (destruct (bool_decide (num_images formData < 5)) eqn:H2;
     [apply bool_decide_eq_true in H2 | apply bool_decide_eq_false in H2]);
    (destruct (bool_decide (num_images formData > 20)) eqn:H3;
     [apply bool_decide_eq_true in H3 | apply bool_decide_eq_false in H3]);
    simpl; unfold count_keys, no_errors; simpl;
    (split; [|split]);
    try (split; intros H);
    try (intros H);
    first [ discriminate | reflexivity | contradiction | lia | (exfalso; simpl in *; lia) ].
Qed.

Lemma validateForm_accepts_iff_witness :
  (validateForm {| prompt := of_string "a red fox"; num_images := 7; model := None |}).2
  = true
  /\ e_prompt (validateForm {| prompt := of_string "   "; num_images := 7;
                               model := None |}).1
     = Some "Please enter a prompt".
Proof.
  split.
  - apply (proj2 (proj1 (validateForm_accepts_iff
             {| prompt := of_string "a red fox"; num_images := 7; model := None |}))).
    vm_compute. split; [lia|]. split; discriminate.
  - apply (proj2 (proj2 (validateForm_accepts_iff
             {| prompt := of_string "   "; num_images := 7; model := None |}))).
    vm_compute. repeat constructor.
Defined.

(** X25.  Typing into the batch-size field never stores 0 or NaN: text that
    does not parse, or parses to 0, stores 5, which passes the range check.
    A change to one field clears that field's error message and leaves the
    other field and its message as they were. *)
Theorem handleInputChange_fields value parsed formData errors :
  let n := handleInputChange f_num_images value parsed (formData, errors) in
  let p := handleInputChange f_prompt value parsed (formData, errors) in
  num_images n.1 <> 0
  /\ (parsed = None \/ parsed = Some 0 ->
      num_images n.1 = 5 /\ e_num_images (validateForm n.1).1 = None)
  /\ prompt n.1 = prompt formData
  /\ truthy (e_num_images n.2) = false
  /\ e_prompt n.2 = e_prompt errors
  /\ prompt p.1 = value
  /\ num_images p.1 = num_images formData
  /\ truthy (e_prompt p.2) = false
  /\ e_num_images p.2 = e_num_images errors.
Proof.
  simpl. split; [|split; [|split; [|split; [|split]]]].
  - destruct parsed as [k|]; [|discriminate].
    destruct (bool_decide (k = 0)) eqn:Hk; [discriminate|].
    apply bool_decide_eq_false in Hk. exact Hk.
  - intros [-> | ->]; split; reflexivity.
  - reflexivity.
  - destruct (truthy (e_num_images errors)) eqn:Ht; [reflexivity | exact Ht].
  - destruct (truthy (e_num_images errors)); reflexivity.
  - do 2 (split; [reflexivity|]). split.
    + destruct (truthy (e_prompt errors)) eqn:Ht; [reflexivity | exact Ht].
    + destruct (truthy (e_prompt errors)); reflexivity.
Qed.

Lemma handleInputChange_fields_witness :
  num_images (handleInputChange f_num_images (of_string "abc") None
                (initialFormData, no_errors)).1 = 5.
Proof.
  apply (proj1 (proj2 (handleInputChange_fields (of_string "abc") None
                         initialFormData no_errors))).
  left. reflexivity.
Defined.

(** X26.  [validateForm] of the login form returns [true] exactly when the
    user name and the password each hold a character that [trim] keeps; a
    field made of space characters only gets its "... is required" message. *)
Theorem validateLogin_accepts_iff (formData : LoginRequest) :
  ((validateLogin formData).2 = true
   <-> ~ Forall (fun c => is_space c = true) (username formData)
       /\ ~ Forall (fun c => is_space c = true) (password formData))
  /\ (Forall (fun c => is_space c = true) (username formData) ->
      e_username (validateLogin formData).1 = Some "Username is required")
  /\ (Forall (fun c => is_space c = true) (password formData) ->
      e_password (validateLogin formData).1 = Some "Password is required").
Proof.
  unfold validateLogin. simpl.
  destruct (bool_decide (trim (username formData) = [])) eqn:Hu;
    [apply bool_decide_eq_true in Hu | apply bool_decide_eq_false in Hu];
    (destruct (bool_decide (trim (password formData) = [])) eqn:Hp;
     [apply bool_decide_eq_true in Hp | apply bool_decide_eq_false in Hp]);
    rewrite trim_nil in Hu, Hp; simpl;
    (split; [|split]);
    try (split; intros H);
    try (intros H);
    first [ discriminate | reflexivity | contradiction | tauto ].
Qed.

Lemma validateLogin_accepts_iff_witness :
  e_username (validateLogin {| username := of_string "  "; password := of_string "pw" |}).1
  = Some "Username is required".
Proof.
  apply (proj1 (proj2 (validateLogin_accepts_iff
           {| username := of_string "  "; password := of_string "pw" |}))).
  vm_compute. repeat constructor.
Defined.

End FormsFacts.

(** * The auth token *)

Section AuthFacts.
Import Auth.

Implicit Types (ls : Storage) (headers : Headers).

(** X27.  Storing a token and reading it back gives the token, and no other
    key of [localStorage] changes.  With a non-empty token the session counts
    as authenticated and the next request carries "Bearer <token>"; with the
    empty token it does not count as authenticated and the request is sent as
    it is. *)
Theorem token_round_trip token ls headers :
  getAuthToken (setAuthToken token ls) = Some token
  /\ (forall k, k <> "auth_token" -> setAuthToken token ls !! k = ls !! k)
  /\ isAuthenticated (setAuthToken token ls) = negb (bool_decide (token = ""))
  /\ (token <> "" ->
      requestInterceptor (setAuthToken token ls) headers
      = <["Authorization" := "Bearer " +:+ token]> headers)
  /\ (token = "" -> requestInterceptor (setAuthToken token ls) headers = headers).
Proof.
  unfold getAuthToken, setAuthToken, isAuthenticated, requestInterceptor, getAuthToken.
  rewrite lookup_insert_eq. split; [reflexivity|]. split.
  - intros k Hk. apply lookup_insert_ne. congruence.
  - split; [reflexivity|]. split.
    + intros Hne. rewrite (bool_decide_eq_false_2 _ Hne). reflexivity.
    + intros ->. reflexivity.
Qed.

Lemma token_round_trip_witness :
  requestInterceptor (setAuthToken "t0k3n" ∅) ∅ !! "Authorization" = Some "Bearer t0k3n".
Proof.
  rewrite (proj1 (proj2 (proj2 (proj2 (token_round_trip "t0k3n" ∅ ∅))))
             ltac:(discriminate)).
  apply lookup_insert_eq.
Defined.

(** X28.  A response with status 401 removes the token: the session no longer
    counts as authenticated and the request interceptor adds no header.  Any
    other failure leaves [localStorage] as it is, and no failure touches
    another key. *)
Theorem unauthorized_response_clears_token status ls headers :
  isAuthenticated (responseError (Some 401) ls) = false
  /\ requestInterceptor (responseError (Some 401) ls) headers = headers
  /\ (status <> Some 401 -> responseError status ls = ls)
  /\ (forall k, k <> "auth_token" -> responseError status ls !! k = ls !! k).
Proof.
  unfold isAuthenticated, getAuthToken, requestInterceptor, responseError. simpl.
  rewrite lookup_delete_eq. do 2 (split; [reflexivity|]). split.
  - intros Hne. rewrite (bool_decide_eq_false_2 _ Hne). reflexivity.
  - intros k Hk. destruct (bool_decide _); [|reflexivity].
    apply lookup_delete_ne. congruence.
Qed.

Lemma unauthorized_response_clears_token_witness :
  responseError (Some 500) (setAuthToken "t" ∅) = setAuthToken "t" ∅.
Proof.
  apply (proj1 (proj2 (proj2 (unauthorized_response_clears_token (Some 500)
                                (setAuthToken "t" ∅) ∅)))).
  discriminate.
Defined.

(** X29.  After a logout, a failed login or a failed token verification the
    token is gone and [isLoggedIn] is false, whatever user data and
    verification result are still cached; and [isLoggedIn] is never true
    without a non-empty token in [localStorage]. *)
Theorem signed_out_means_not_logged_in ls user isValidToken :
  isLoggedIn (logout ls) user isValidToken = false
  /\ isLoggedIn (login_onError ls) user isValidToken = false
  /\ (verifyToken false ls).1 = false
  /\ isLoggedIn (verifyToken false ls).2 user isValidToken = false
  /\ (isLoggedIn ls user isValidToken = true ->
      exists token, getAuthToken ls = Some token /\ token <> ""
                    /\ user = true /\ isValidToken <> Some false).
Proof.
  unfold isLoggedIn, logout, login_onError, verifyToken, isAuthenticated,
    removeAuthToken, getAuthToken. simpl.
  rewrite lookup_delete_eq. do 4 (split; [reflexivity|]).
  destruct (ls !! "auth_token") as [token|]; simpl; [|discriminate].
  destruct (bool_decide (token = "")) eqn:Ht; simpl; [discriminate|].
  apply bool_decide_eq_false in Ht.
  destruct user; simpl; [|discriminate].
  destruct (bool_decide (isValidToken = Some false)) eqn:Hv; simpl; [discriminate|].
  apply bool_decide_eq_false in Hv. intros _. exists token. auto.
Qed.

Lemma signed_out_means_not_logged_in_witness :
  exists token, getAuthToken (login_onSuccess "abc" ∅) = Some token /\ token <> "".
Proof.
  assert (isLoggedIn (login_onSuccess "abc" ∅) true None = true) as H.
  { unfold isLoggedIn, isAuthenticated, getAuthToken, login_onSuccess, setAuthToken.
    rewrite lookup_insert_eq. reflexivity. }
  destruct (proj2 (proj2 (proj2 (proj2
              (signed_out_means_not_logged_in (login_onSuccess "abc" ∅) true None))))
              H) as (token & Hg & Hne & _).
  exists token. auto.
Defined.

End AuthFacts.
